(** * goplantuml: the class-diagram parser and renderer

    A shallow embedding of [parser/class_parser.go]: the model builder
    ([NewClassDiagram], [parsePackage], [parseFileDeclarations],
    [getOrCreateStruct], [getStruct]) and the renderer ([Render]).

    Go strings are byte sequences and are modelled by [string] (a sequence of
    [ascii] bytes).  Go maps are [gmap]s and the sets [allStructs] and
    [allInterfaces] (maps to the empty struct) are [gset]s.  A [*Struct] is an
    address into the [structure] table: entries are created once by
    [getOrCreateStruct] and never replaced or removed, so the pair (package
    name, type name) identifies the pointer and every mutation through the
    pointer is an update of that entry.  A run-time panic (index out of range,
    nil dereference, write to a nil map) is the [Panic] outcome. *)

From Stdlib Require Import Ascii String NArith Lia.
From stdpp Require Import gmap strings list fin_maps.

Open Scope string_scope.

(** ** Outcomes of fallible code *)

Inductive result (A : Type) : Type :=
| Ok (a : A)
| Panic.
Arguments Ok {A} a.
Arguments Panic {A}.

#[global] Instance result_bind : MBind result :=
  fun A B k r => match r with Ok a => k a | Panic => Panic end.

#[global] Instance result_ret : MRet result := fun A a => Ok a.

(** [for _, x := range xs { body }] threading the loop state. *)
Fixpoint forEach {A S : Type} (body : S -> A -> result S) (xs : list A) (s : S)
  : result S :=
  match xs with
  | [] => Ok s
  | x :: rest => s' ← body s x; forEach body rest s'
  end.

(** [mapM]: a pure description of a loop that emits one piece per element. *)
Fixpoint mapM {A B : Type} (f : A -> result B) (xs : list A) : result (list B) :=
  match xs with
  | [] => Ok []
  | x :: rest => y ← f x; ys ← mapM f rest; Ok (y :: ys)
  end.

(** Go leaves the order of [range] over a map unspecified.  The model visits
    the entries in the order of [map_to_list]; the loop bodies are stated over
    arbitrary sequences of entries, so what is proved of them holds for every
    order. *)
Definition range {V : Type} (m : gmap string V) : list (string * V) :=
  map_to_list m.

(** ** The [strings] and [unicode] functions the file calls *)

Definition nl : string := String (ascii_of_nat 10) "".

Fixpoint Repeat (s : string) (count : nat) : string :=
  match count with
  | O => ""
  | S n => s +:+ Repeat s n
  end.

Fixpoint Join (elems : list string) (sep : string) : string :=
  match elems with
  | [] => ""
  | [x] => x
  | x :: rest => x +:+ sep +:+ Join rest sep
  end.

(** [strings.Contains s substr]: [substr] occurs somewhere within [s]. *)
Fixpoint Contains (s substr : string) : bool :=
  String.prefix substr s ||
  match s with
  | "" => false
  | String _ s' => Contains s' substr
  end.

(** [strings.HasSuffix]:
    [len(s) >= len(suffix) && s[len(s)-len(suffix):] == suffix]. *)
Definition HasSuffix (s suffix : string) : bool :=
  (String.length suffix <=? String.length s)%nat &&
  String.eqb
    (String.substring (String.length s - String.length suffix)
       (String.length suffix) s)
    suffix.

(** [strings.SplitN(s, sep, 2)] for a one-byte separator: the text before
    the first separator and the text after it, or [s] alone when there is
    none. *)
Fixpoint SplitN_2 (s : string) (sep : ascii) : list string :=
  match s with
  | "" => [""]
  | String c s' =>
      if Ascii.eqb c sep then [""; s']
      else match SplitN_2 s' sep with
           | x :: rest => String c x :: rest
           | [] => []
           end
  end.

(** [unicode.IsLower] on the runes a byte converts to.  [rune(name[0])] is
    at most [MaxLatin1], where Go answers [properties[uint8(r)]&pLmask == pLl];
    the entries of that table with [pLl] are a-z, the micro sign and the small
    letters U+00DF-U+00F6 and U+00F8-U+00FF. *)
Definition IsLower (r : N) : bool :=
  ((97 <=? r) && (r <=? 122) || (r =? 181) ||
   (223 <=? r) && (r <=? 246) || (248 <=? r) && (r <=? 255))%N.

(** [unicode.IsUpper] on the same range: A-Z, U+00C0-U+00D6, U+00D8-U+00DE. *)
Definition IsUpper (r : N) : bool :=
  ((65 <=? r) && (r <=? 90) ||
   (192 <=? r) && (r <=? 214) || (216 <=? r) && (r <=? 222))%N.

(** ** The declaration model *)

Record Field : Type := mkField {
  Field_Name : string;
  Field_Type : string
}.

Record Function : Type := mkFunction {
  Function_Name : string;
  Parameters : list Field;
  ReturnValues : list string
}.

(** [Type_] is the Go field [Type]: ["class"], ["interface"] or [""]. *)
Record Struct : Type := mkStruct {
  PackageName : string;
  Functions : list Function;
  Fields : list Field;
  Type_ : string;
  Composition : list string;
  Extends : list string
}.

Record ClassParser : Type := mkClassParser {
  structure : gmap string (gmap string Struct);
  currentPackageName : string;
  allInterfaces : gset string;
  allStructs : gset string
}.

(** ** [LineStringBuilder] *)

Definition LineStringBuilder : Type := string.

Definition WriteString (lsb : LineStringBuilder) (s : string) : LineStringBuilder :=
  lsb +:+ s.

Definition tab : string := "    ".

Definition WriteLineWithDepth (lsb : LineStringBuilder) (depth : nat) (str : string)
  : LineStringBuilder :=
  WriteString (WriteString (WriteString lsb (Repeat tab depth)) str) nl.

(** ** [Render] *)

(** [name[0]] converted to a rune; indexing an empty string panics. *)
Definition firstRune (name : string) : result N :=
  match name with
  | "" => Panic
  | String c _ => Ok (N_of_ascii c)
  end.

(** Lines 178-181 and 201-204: the access modifier of a member name. *)
Definition accessModifier (name : string) : result string :=
  r ← firstRune name;
  Ok (if IsLower r then "-" else "+").

(** Lines 177-187: one iteration of the loop over [structure.Fields]. *)
Definition renderField (acc : LineStringBuilder * LineStringBuilder) (field : Field)
  : result (LineStringBuilder * LineStringBuilder) :=
  let '(privateFields, publicFields) := acc in
  am ← accessModifier (Field_Name field);
  let line := am +:+ " " +:+ Field_Name field +:+ " " +:+ Field_Type field in
  if String.eqb am "-"
  then Ok (WriteLineWithDepth privateFields 2 line, publicFields)
  else Ok (privateFields, WriteLineWithDepth publicFields 2 line).

(** Lines 188-193: one iteration of the loop over [structure.Composition]. *)
Definition renderComposition (st : Struct) (pack name : string)
    (composition : LineStringBuilder) (c : string) : LineStringBuilder :=
  let c := if negb (Contains c ".") then PackageName st +:+ "." +:+ c else c in
  WriteLineWithDepth composition 0 (c +:+ " *-- " +:+ pack +:+ "." +:+ name).

(** Lines 194-199: one iteration of the loop over [structure.Extends]. *)
Definition renderExtends (st : Struct) (pack name : string)
    (extends : LineStringBuilder) (c : string) : LineStringBuilder :=
  let c := if negb (Contains c ".") then PackageName st +:+ "." +:+ c else c in
  WriteLineWithDepth extends 0 (c +:+ " <|-- " +:+ pack +:+ "." +:+ name).

(** Lines 205-208. *)
Definition parameterList (method : Function) : list string :=
  map (fun p => Field_Name p +:+ " " +:+ Field_Type p) (Parameters method).

(** Lines 209-212. *)
Definition returnValues (method : Function) : string :=
  if (1 <? length (ReturnValues method))%nat
  then "(" +:+ Join (ReturnValues method) ", " +:+ ")"
  else "".

(** Lines 200-218: one iteration of the loop over [structure.Functions]. *)
Definition renderMethod (acc : LineStringBuilder * LineStringBuilder) (method : Function)
  : result (LineStringBuilder * LineStringBuilder) :=
  let '(privateMethods, publicMethods) := acc in
  am ← accessModifier (Function_Name method);
  let line :=
    am +:+ " " +:+ Function_Name method +:+ "(" +:+
    Join (parameterList method) ", " +:+ ") " +:+ returnValues method in
  if String.eqb am "-"
  then Ok (WriteLineWithDepth privateMethods 2 line, publicMethods)
  else Ok (privateMethods, WriteLineWithDepth publicMethods 2 line).

(** Lines 219-230: a member group is written only when it is not empty. *)
Definition writeGroup (str group : LineStringBuilder) : LineStringBuilder :=
  if (0 <? String.length group)%nat then WriteLineWithDepth str 0 group else str.

(** Lines 171-232: one iteration of the loop over the types of a package.
    The state is [(str, composition, extends)]. *)
Definition renderStructure (pack : string)
    (acc : LineStringBuilder * LineStringBuilder * LineStringBuilder)
    (entry : string * Struct)
  : result (LineStringBuilder * LineStringBuilder * LineStringBuilder) :=
  let '(str, composition, extends) := acc in
  let '(name, st) := entry in
  let str := WriteLineWithDepth str 1 (Type_ st +:+ " " +:+ name +:+ " {") in
  '(privateFields, publicFields) ← forEach renderField (Fields st) ("", "");
  let composition :=
    fold_left (renderComposition st pack name) (Composition st) composition in
  let extends := fold_left (renderExtends st pack name) (Extends st) extends in
  '(privateMethods, publicMethods) ← forEach renderMethod (Functions st) ("", "");
  let str := writeGroup str privateFields in
  let str := writeGroup str publicFields in
  let str := writeGroup str privateMethods in
  let str := writeGroup str publicMethods in
  Ok (WriteLineWithDepth str 1 "}", composition, extends).

(** Lines 166-238: one iteration of the loop over the packages, given the
    sequence in which the package's types are visited. *)
Definition renderPackage (str : LineStringBuilder)
    (entry : string * list (string * Struct)) : result LineStringBuilder :=
  let '(pack, structures) := entry in
  if (0 <? length structures)%nat then
    let str := WriteLineWithDepth str 0 ("namespace " +:+ pack +:+ " {") in
    '(str, composition, extends) ←
      forEach (renderStructure pack) structures (str, "", "");
    let str := WriteLineWithDepth str 0 "}" in
    let str := WriteLineWithDepth str 0 composition in
    Ok (WriteLineWithDepth str 0 extends)
  else Ok str.

(** Lines 163-241 on a given visiting sequence of packages and types. *)
Definition renderAll (packages : list (string * list (string * Struct)))
  : result string :=
  let str := WriteLineWithDepth "" 0 "@startuml" in
  str ← forEach renderPackage packages str;
  Ok (WriteString str "@enduml").

Definition Render (p : ClassParser) : result string :=
  renderAll (map (fun e => (e.1, range e.2)) (range (structure p))).

(** ** The declaration tree handed over by [go/parser]

    The part of [go/ast] the builder inspects.  A type expression is kept by
    the text it is written as (what the builder stores for it), and, when it
    is a function type, by its signature. *)
Module ast.

Record FuncType : Type := mkFuncType {
  Params : list (string * string);
  Results : list string
}.

Record Expr : Type := mkExpr {
  Text : string;
  AsFuncType : option FuncType
}.

Record Field : Type := mkField {
  Names : list string;
  Type_ : Expr
}.

Inductive TypeExpr : Type :=
| StructType (Fields : list Field)
| InterfaceType (Methods : list Field)
| OtherType.

Inductive Spec : Type :=
| TypeSpec (Name : string) (Type_ : TypeExpr)
| OtherSpec.

Inductive Decl : Type :=
| GenDecl (Specs : list Spec)
| FuncDecl (Recv : option (list Field)) (Name : string) (Type_ : FuncType)
| BadDecl.

Record File : Type := mkFile {
  Decls : list Decl
}.

Record Package : Type := mkPackage {
  Name : string;
  Files : list (string * File)
}.

End ast.

Definition error : Type := string.

(** ** Pointers into the [structure] table *)

Definition StructPtr : Type := string * string.

Definition deref (p : ClassParser) (ptr : StructPtr) : option Struct :=
  structure p !! ptr.1 ≫= (.!! ptr.2).

Definition setStructure (p : ClassParser) (s : gmap string (gmap string Struct))
  : ClassParser :=
  mkClassParser s (currentPackageName p) (allInterfaces p) (allStructs p).

Definition store (p : ClassParser) (ptr : StructPtr) (st : Struct) : ClassParser :=
  setStructure p
    (<[ptr.1 := <[ptr.2 := st]> (default ∅ (structure p !! ptr.1))]> (structure p)).

(** A method with a pointer receiver run on [ptr]; a nil [ptr] panics. *)
Definition update (ptr : StructPtr) (f : Struct -> Struct) (p : ClassParser)
  : result ClassParser :=
  match deref p ptr with
  | Some st => Ok (store p ptr (f st))
  | None => Panic
  end.

Definition setType (declarationType : string) (st : Struct) : Struct :=
  mkStruct (PackageName st) (Functions st) (Fields st) declarationType
    (Composition st) (Extends st).

(** ** The methods of [Struct], which are not in this file *)

(** Modelled from the spec: [AddField] is declared in another file.  "If named,
    append a Field (name, type-expression text); if anonymous (embedding),
    append the referenced type name to the composition set instead." *)
Definition AddField (field : ast.Field) (st : Struct) : Struct :=
  match ast.Names field with
  | name :: _ =>
      mkStruct (PackageName st) (Functions st)
        (Fields st ++ [mkField name (ast.Text (ast.Type_ field))])
        (Type_ st) (Composition st) (Extends st)
  | [] =>
      mkStruct (PackageName st) (Functions st) (Fields st) (Type_ st)
        (Composition st ++ [ast.Text (ast.Type_ field)]) (Extends st)
  end.

(** Modelled from the spec: [AddMethod] is declared in another file.  It
    "appends one Method per interface member signature" and "a function
    declaration with a receiver of type R appends a Method to TypeEntity R":
    a Method is a name, the ordered (parameter name, parameter type) pairs and
    the ordered return types.  A member that is not a signature adds nothing. *)
Definition AddMethod (method : ast.Field) (st : Struct) : Struct :=
  match ast.AsFuncType (ast.Type_ method), ast.Names method with
  | Some f, name :: _ =>
      mkStruct (PackageName st)
        (Functions st ++
           [mkFunction name (map (fun q => mkField q.1 q.2) (ast.Params f))
              (ast.Results f)])
        (Fields st) (Type_ st) (Composition st) (Extends st)
  | _, _ => st
  end.

(** Modelled from the spec: [AddToExtends] is declared in another file.
    "Append I's fully-qualified name to R's extends set." *)
Definition AddToExtends (fType : string) (st : Struct) : Struct :=
  mkStruct (PackageName st) (Functions st) (Fields st) (Type_ st)
    (Composition st) (Extends st ++ [fType]).

(** "Identical name, identical ordered parameter type sequence, and identical
    ordered return-type sequence (exact textual match)". *)
Definition SignturesAreEqual (f g : Function) : bool :=
  bool_decide (Function_Name f = Function_Name g) &&
  bool_decide (map Field_Type (Parameters f) = map Field_Type (Parameters g)) &&
  bool_decide (ReturnValues f = ReturnValues g).

(** Modelled from the spec: [ImplementsInterface] is declared in another file.
    "R implements I iff, for every Method M declared on I, R has a Method with
    identical name, identical ordered parameter type sequence, and identical
    ordered return-type sequence."  Reading the methods of a nil interface
    pointer is a nil dereference. *)
Definition ImplementsInterface (st : Struct) (inter : option Struct) : result bool :=
  match inter with
  | None => Panic
  | Some i =>
      Ok (forallb (fun f1 => existsb (SignturesAreEqual f1) (Functions st))
            (Functions i))
  end.

(** ** The builder *)

(** Lines 244-258.  Writing the new entry into a package table that was never
    made is a write to a nil map. *)
Definition getOrCreateStruct (p : ClassParser) (name : string)
  : result (ClassParser * StructPtr) :=
  let ptr := (currentPackageName p, name) in
  match structure p !! currentPackageName p with
  | None => Panic
  | Some pack =>
      match pack !! name with
      | Some _ => Ok (p, ptr)
      | None => Ok (store p ptr (mkStruct (currentPackageName p) [] [] "" [] []), ptr)
      end
  end.

(** Lines 261-268.  [None] is the nil pointer. *)
Definition getStruct (p : ClassParser) (structName : string)
  : result (option StructPtr) :=
  match SplitN_2 structName "." with
  | [] => Panic
  | s0 :: rest =>
      match structure p !! s0 with
      | None => Ok None
      | Some pack =>
          match rest with
          | [] => Panic
          | s1 :: _ =>
              Ok (match pack !! s1 with
                  | Some _ => Some (s0, s1)
                  | None => None
                  end)
          end
      end
  end.

Definition registerInterface (p : ClassParser) (fullName : string) : ClassParser :=
  mkClassParser (structure p) (currentPackageName p)
    ({[fullName]} ∪ allInterfaces p) (allStructs p).

Definition registerStruct (p : ClassParser) (fullName : string) : ClassParser :=
  mkClassParser (structure p) (currentPackageName p)
    (allInterfaces p) ({[fullName]} ∪ allStructs p).

(** Lines 128-137: the end of the [*ast.GenDecl] case. *)
Definition declareType (p : ClassParser) (typeName declarationType : string)
  : result ClassParser :=
  '(p, ptr) ← getOrCreateStruct p typeName;
  p ← update ptr (setType declarationType) p;
  let fullName := currentPackageName p +:+ "." +:+ typeName in
  if String.eqb declarationType "interface" then Ok (registerInterface p fullName)
  else if String.eqb declarationType "class" then Ok (registerStruct p fullName)
  else Ok p.

(** Lines 98-160. *)
Definition parseFileDeclarations (p : ClassParser) (node : ast.Decl)
  : result ClassParser :=
  match node with
  | ast.GenDecl Specs =>
      match Specs with
      | [] => Panic
      | ast.TypeSpec typeName (ast.StructType fields) :: _ =>
          p ← forEach
                (fun p f =>
                   '(p, ptr) ← getOrCreateStruct p typeName;
                   update ptr (AddField f) p)
                fields p;
          declareType p typeName "class"
      | ast.TypeSpec typeName (ast.InterfaceType methods) :: _ =>
          p ← forEach
                (fun p f =>
                   '(p, ptr) ← getOrCreateStruct p typeName;
                   update ptr (AddMethod f) p)
                methods p;
          declareType p typeName "interface"
      | ast.TypeSpec _ ast.OtherType :: _ => Ok p
      | ast.OtherSpec :: _ => Ok p
      end
  | ast.FuncDecl (Some Recv) Name Type_0 =>
      match Recv with
      | [] => Panic
      | recv :: _ =>
          match ast.Text (ast.Type_ recv) with
          | "" => Panic
          | String c rest as theType =>
              let theType := if Ascii.eqb c "*" then rest else theType in
              '(p, structure) ← getOrCreateStruct p theType;
              p ← update structure
                    (fun st => if String.eqb (Type_ st) "" then setType "class" st
                               else st) p;
              update structure
                (AddMethod
                   (ast.mkField [Name] (ast.mkExpr "" (Some Type_0)))) p
          end
      end
  | ast.FuncDecl None _ _ => Ok p
  | ast.BadDecl => Ok p
  end.

(** Lines 81-95, over the sequence in which the files are visited. *)
Definition parsePackage (p : ClassParser) (pack : ast.Package) : result ClassParser :=
  let p :=
    mkClassParser (structure p) (ast.Name pack) (allInterfaces p) (allStructs p) in
  let p :=
    match structure p !! currentPackageName p with
    | Some _ => p
    | None => setStructure p (<[currentPackageName p := ∅]> (structure p))
    end in
  forEach
    (fun p (entry : string * ast.File) =>
       if negb (HasSuffix entry.1 "_test.go")
       then forEach parseFileDeclarations (ast.Decls entry.2) p
       else Ok p)
    (ast.Files pack) p.

(** Lines 69-74: the loop over [allInterfaces] for the struct [st]. *)
Definition resolveInterface (st : StructPtr) (p : ClassParser) (i : string)
  : result ClassParser :=
  inter ← getStruct p i;
  match deref p st with
  | None => Panic
  | Some s =>
      implements ← ImplementsInterface s (inter ≫= deref p);
      match implements with
      | true => update st (AddToExtends i) p
      | false => Ok p
      end
  end.

(** Lines 66-76: one iteration of the loop over [allStructs]. *)
Definition resolveStruct (interfaces : list string) (p : ClassParser) (s : string)
  : result ClassParser :=
  st ← getStruct p s;
  match st with
  | Some st => forEach (resolveInterface st) interfaces p
  | None => Ok p
  end.

(** Lines 52-78.  [ParseDir] is the external parser: it gives the packages, in
    the order the first loop visits them, and its error.  The outcome is the
    pair Go returns, or a panic. *)
Definition NewClassDiagram
    (ParseDir : string -> list ast.Package * option error) (directoryPath : string)
  : result (option ClassParser * option error) :=
  let classParser := mkClassParser ∅ "" ∅ ∅ in
  let '(result, err) := ParseDir directoryPath in
  match err with
  | Some e => Ok (None, Some e)
  | None =>
      classParser ← forEach parsePackage result classParser;
      classParser ←
        forEach (resolveStruct (elements (allInterfaces classParser)))
          (elements (allStructs classParser)) classParser;
      Ok (Some classParser, None)
  end.

(** ** What the renderer writes, piece by piece

    Closed descriptions of the text each loop contributes; the theorems
    below relate them to [Render]. *)

Definition concatAll (pieces : list string) : string :=
  foldr String.append "" pieces.

(** A stored reference "contains a namespace separator". *)
Definition hasSeparator (c : string) : bool :=
  existsb (Ascii.eqb ".") (list_ascii_of_string c).

(** "An edge's source type-name is qualified with the owning type's namespace
    if it contains no namespace separator already." *)
Definition qualifiedSource (owner c : string) : string :=
  if hasSeparator c then c else owner +:+ "." +:+ c.

Definition compositionEdges (pack : string) (entry : string * Struct) : string :=
  concatAll
    (map (fun c => qualifiedSource (PackageName entry.2) c +:+ " *-- " +:+
                   pack +:+ "." +:+ entry.1 +:+ nl)
       (Composition entry.2)).

Definition extendsEdges (pack : string) (entry : string * Struct) : string :=
  concatAll
    (map (fun c => qualifiedSource (PackageName entry.2) c +:+ " <|-- " +:+
                   pack +:+ "." +:+ entry.1 +:+ nl)
       (Extends entry.2)).

Definition memberGroup (group : string) : string :=
  if (0 <? String.length group)%nat then group +:+ nl else "".

(** The declaration of one type: its header line, its four member groups
    and its closing line. *)
Definition typeDeclaration (entry : string * Struct) : result string :=
  '(privateFields, publicFields) ← forEach renderField (Fields entry.2) ("", "");
  '(privateMethods, publicMethods) ←
    forEach renderMethod (Functions entry.2) ("", "");
  Ok (tab +:+ Type_ entry.2 +:+ " " +:+ entry.1 +:+ " {" +:+ nl +:+
      memberGroup privateFields +:+ memberGroup publicFields +:+
      memberGroup privateMethods +:+ memberGroup publicMethods +:+
      tab +:+ "}" +:+ nl).

(** The lines of a text. *)
Fixpoint lines (s : string) : list string :=
  match s with
  | "" => [""]
  | String c s' =>
      if Ascii.eqb c (ascii_of_nat 10) then "" :: lines s'
      else match lines s' with
           | l :: rest => String c l :: rest
           | [] => [String c ""]
           end
  end.

Definition isEdgeLine (l : string) : bool :=
  Contains l " *-- " || Contains l " <|-- ".

(** Every edge line is followed, later in the text, by the line that closes
    a namespace block. *)
Fixpoint edgesInsideBlock (ls : list string) : bool :=
  match ls with
  | [] => true
  | l :: rest =>
      (if isEdgeLine l then existsb (String.eqb "}") rest else true) &&
      edgesInsideBlock rest
  end.

(** ** Predicates on models *)

Definition allStructsb (P : Struct -> bool) (p : ClassParser) : bool :=
  forallb (fun e : string * gmap string Struct =>
             forallb (fun e' : string * Struct => P e'.2) (range e.2))
    (range (structure p)).

Definition nonEmpty (s : string) : bool := negb (String.eqb s "").

(** Every field and method of the type has a name of at least one byte. *)
Definition namedMembers (st : Struct) : bool :=
  forallb (fun f => nonEmpty (Field_Name f)) (Fields st) &&
  forallb (fun m => nonEmpty (Function_Name m)) (Functions st).

(** A well-formed model: the member names are identifiers, hence not empty. *)
Definition wellFormed (p : ClassParser) : bool := allStructsb namedMembers p.

Definition kindAssigned (st : Struct) : bool :=
  String.eqb (Type_ st) "class" || String.eqb (Type_ st) "interface".

Definition kindsAssigned (p : ClassParser) : bool := allStructsb kindAssigned p.

(** The identifiers of a declaration tree are not empty (the parser never
    produces an identifier without a name). *)
Definition fieldIdents (f : ast.Field) : bool :=
  forallb nonEmpty (ast.Names f).

Definition declIdents (d : ast.Decl) : bool :=
  match d with
  | ast.GenDecl (ast.TypeSpec _ (ast.StructType fields) :: _) =>
      forallb fieldIdents fields
  | ast.GenDecl (ast.TypeSpec _ (ast.InterfaceType methods) :: _) =>
      forallb fieldIdents methods
  | ast.FuncDecl _ name _ => nonEmpty name
  | _ => true
  end.

Definition packageIdents (pack : ast.Package) : bool :=
  forallb (fun e : string * ast.File => forallb declIdents (ast.Decls e.2))
    (ast.Files pack).

(** What a declaration does to the table: the type it touches and the change
    it makes to that type's entry (a new entry when there was none). *)
Definition newStruct (packageName : string) : Struct :=
  mkStruct packageName [] [] "" [] [].

Definition declEffect (node : ast.Decl) : option (string * (Struct -> Struct)) :=
  match node with
  | ast.GenDecl (ast.TypeSpec typeName (ast.StructType fields) :: _) =>
      Some (typeName,
            fun st => setType "class" (fold_left (fun s f => AddField f s) fields st))
  | ast.GenDecl (ast.TypeSpec typeName (ast.InterfaceType methods) :: _) =>
      Some (typeName,
            fun st =>
              setType "interface" (fold_left (fun s f => AddMethod f s) methods st))
  | ast.FuncDecl (Some (recv :: _)) Name Type_0 =>
      match ast.Text (ast.Type_ recv) with
      | "" => None
      | String c rest as theType =>
          Some (if Ascii.eqb c "*" then rest else theType,
                fun st =>
                  AddMethod (ast.mkField [Name] (ast.mkExpr "" (Some Type_0)))
                    (if String.eqb (Type_ st) "" then setType "class" st else st))
      end
  | _ => None
  end.

(** ** Sample inputs *)

Definition emptyModel : ClassParser := mkClassParser ∅ "" ∅ ∅.

(** The text the empty model would give with a blank line between the two
    markers. *)
Definition markersAroundBlankLine : string :=
  "@startuml" +:+ nl +:+ nl +:+ "@enduml".

Definition typeText (s : string) : ast.Expr := ast.mkExpr s None.

Definition funcText (f : ast.FuncType) : ast.Expr := ast.mkExpr "func" (Some f).

Definition speakSignature : ast.FuncType := ast.mkFuncType [] ["string"].

(** [type Speaker interface { Speak() string }] *)
Definition speakerDecl : ast.Decl :=
  ast.GenDecl
    [ast.TypeSpec "Speaker"
       (ast.InterfaceType [ast.mkField ["Speak"] (funcText speakSignature)])].

(** [type Dog struct { name string; Animal }] *)
Definition dogDecl : ast.Decl :=
  ast.GenDecl
    [ast.TypeSpec "Dog"
       (ast.StructType
          [ast.mkField ["name"] (typeText "string");
           ast.mkField [] (typeText "Animal")])].

(** [func (d *Dog) Speak() string] *)
Definition dogSpeak : ast.Decl :=
  ast.FuncDecl (Some [ast.mkField ["d"] (typeText "*Dog")]) "Speak" speakSignature.

(** [type Celsius float64] *)
Definition celsiusDecl : ast.Decl :=
  ast.GenDecl [ast.TypeSpec "Celsius" ast.OtherType].

(** [func (c Celsius) Speak() string] *)
Definition celsiusSpeak : ast.Decl :=
  ast.FuncDecl (Some [ast.mkField ["c"] (typeText "Celsius")]) "Speak" speakSignature.

(** [func (s Shape) Area() float64] *)
Definition shapeArea : ast.Decl :=
  ast.FuncDecl (Some [ast.mkField ["s"] (typeText "Shape")]) "Area"
    (ast.mkFuncType [] ["float64"]).

(** [type Shape interface { Area() float64 }] *)
Definition shapeDecl : ast.Decl :=
  ast.GenDecl
    [ast.TypeSpec "Shape"
       (ast.InterfaceType
          [ast.mkField ["Area"] (funcText (ast.mkFuncType [] ["float64"]))])].

Definition onePackage (decls : list ast.Decl) (_ : string)
  : list ast.Package * option error :=
  ([ast.mkPackage "pkg" [("a.go", ast.mkFile decls)]], None).

Definition failingParser (_ : string) : list ast.Package * option error :=
  ([], Some "expected declaration").

(** A parser state inside package [pkg], before any declaration. *)
Definition inPkg : ClassParser := mkClassParser {["pkg" := ∅]} "pkg" ∅ ∅.

Definition speakMethod : Function := mkFunction "Speak" [] ["string"].

Definition dogStruct : Struct :=
  mkStruct "pkg" [speakMethod] [mkField "name" "string"] "class" ["Animal"]
    ["pkg.Speaker"].

Definition dogModel : ClassParser :=
  mkClassParser {["pkg" := {["Dog" := dogStruct]}]} "pkg" ∅ {["pkg.Dog"]}.

(** The kind a declaration gives to the entry [ptr], when it declares that
    type as a struct or as an interface in the package [packageName]. *)
Definition declaredKind (packageName : string) (node : ast.Decl) (ptr : StructPtr)
  : option string :=
  match node with
  | ast.GenDecl (ast.TypeSpec typeName (ast.StructType _) :: _) =>
      if decide (ptr = (packageName, typeName)) then Some "class" else None
  | ast.GenDecl (ast.TypeSpec typeName (ast.InterfaceType _) :: _) =>
      if decide (ptr = (packageName, typeName)) then Some "interface" else None
  | _ => None
  end.

(** [p'] is [p] after the change [eff]: the current package is the same, the
    touched entry is the changed old entry (or the changed new entry when
    there was none) and every other entry is as before. *)
Definition Effect (p p' : ClassParser) (eff : option (string * (Struct -> Struct)))
  : Prop :=
  currentPackageName p' = currentPackageName p /\
  forall ptr,
    deref p' ptr =
    match eff with
    | Some (name, f) =>
        if decide (ptr = (currentPackageName p, name))
        then Some (f (default (newStruct (currentPackageName p)) (deref p ptr)))
        else deref p ptr
    | None => deref p ptr
    end.

(** Every entry of the table satisfies [P]. *)
Definition everyStruct (P : Struct -> bool) (p : ClassParser) : Prop :=
  forall ptr st, deref p ptr = Some st -> P st = true.

(** Every name in [allStructs] and [allInterfaces] is [package.type] for a
    package name without a dot and a type that has an entry. *)
Definition Registered (p : ClassParser) : Prop :=
  forall s, s ∈ allStructs p \/ s ∈ allInterfaces p ->
    exists pk nm,
      s = pk +:+ "." +:+ nm /\ hasSeparator pk = false /\
      is_Some (deref p (pk, nm)).

(** [q'] is [q] after some steps of the resolution pass: the same entries
    with the same methods, and extends lists that have only grown. *)
Definition Resolved (q q' : ClassParser) : Prop :=
  allStructs q' = allStructs q /\ allInterfaces q' = allInterfaces q /\
  forall ptr,
    match deref q ptr with
    | Some st =>
        exists st', deref q' ptr = Some st' /\
                    Functions st' = Functions st /\
                    forall x, In x (Extends st) -> In x (Extends st')
    | None => deref q' ptr = None
    end.

(** The test of the resolution pass, on two types. *)
Definition implements (r i : Struct) : bool :=
  forallb (fun f1 => existsb (SignturesAreEqual f1) (Functions r)) (Functions i).

(** ** Descriptions used by the further properties *)

(** A member goes to the private group when the first byte of its name is a
    lower-case letter. *)
Definition isPrivate (name : string) : bool :=
  match name with
  | "" => false
  | String c _ => IsLower (N_of_ascii c)
  end.

Definition markerOf (name : string) : string :=
  if isPrivate name then "-" else "+".

Definition fieldLine (field : Field) : string :=
  tab +:+ tab +:+ markerOf (Field_Name field) +:+ " " +:+ Field_Name field +:+
  " " +:+ Field_Type field +:+ nl.

Definition methodLine (method : Function) : string :=
  tab +:+ tab +:+ markerOf (Function_Name method) +:+ " " +:+
  Function_Name method +:+ "(" +:+ Join (parameterList method) ", " +:+ ") " +:+
  returnValues method +:+ nl.

(** A group of member lines as it appears in a type declaration: nothing when
    there is no member, the lines and one empty line otherwise. *)
Definition groupOf (memberLines : list string) : string :=
  match memberLines with
  | [] => ""
  | _ :: _ => concatAll memberLines +:+ nl
  end.

Definition privateField (f : Field) : bool := isPrivate (Field_Name f).
Definition publicField (f : Field) : bool := negb (isPrivate (Field_Name f)).
Definition privateMethod (m : Function) : bool := isPrivate (Function_Name m).
Definition publicMethod (m : Function) : bool := negb (isPrivate (Function_Name m)).

(** The package without its test files. *)
Definition withoutTests (pack : ast.Package) : ast.Package :=
  ast.mkPackage (ast.Name pack)
    (List.filter (fun e : string * ast.File => negb (HasSuffix e.1 "_test.go"))
       (ast.Files pack)).

(** A declaration on which the builder indexes out of range: a group without
    a specification ([decl.Specs[0]]), a method whose receiver list is empty
    ([decl.Recv.List[0]]) or whose receiver type has an empty text
    ([theType[0]]). *)
Definition indexesOutOfRange (node : ast.Decl) : bool :=
  match node with
  | ast.GenDecl [] => true
  | ast.FuncDecl (Some []) _ _ => true
  | ast.FuncDecl (Some (recv :: _)) _ _ =>
      String.eqb (ast.Text (ast.Type_ recv)) ""
  | _ => false
  end.



(** [p'] has the current package of [p] and every package table [p] has. *)
Definition KeepsPackages (p p' : ClassParser) : Prop :=
  currentPackageName p' = currentPackageName p /\
  forall pk, is_Some (structure p !! pk) -> is_Some (structure p' !! pk).

(** The parser state is inside a package: the table of the current package
    has been made. *)
Definition inPackage (p : ClassParser) : Prop :=
  is_Some (structure p !! currentPackageName p).

(** A package with a declaration that indexes out of range in one of the
    files that are parsed. *)
Definition crashing (pack : ast.Package) : bool :=
  existsb
    (fun e : string * ast.File =>
       negb (HasSuffix e.1 "_test.go") &&
       existsb indexesOutOfRange (ast.Decls e.2))
    (ast.Files pack).

(** [q'] is [q] after more declarations of the current package: the package
    tables are kept, the entries of the other packages are as they were, and
    no entry has gone. *)
Definition Grows (q q' : ClassParser) : Prop :=
  KeepsPackages q q' /\
  (forall ptr, ptr.1 <> currentPackageName q -> deref q' ptr = deref q ptr) /\
  (forall ptr, is_Some (deref q ptr) -> is_Some (deref q' ptr)).

Definition noExtends (st : Struct) : bool :=
  match Extends st with
  | [] => true
  | _ :: _ => false
  end.

(** Every name in an extends list is one of [interfaces], and the type that
    carries it is one of [structs]. *)
Definition EdgesRegistered (structs interfaces : list string) (q : ClassParser)
  : Prop :=
  forall ptr R x, deref q ptr = Some R -> In x (Extends R) ->
    In (ptr.1 +:+ "." +:+ ptr.2) structs /\ In x interfaces.

(** Every entry names, as its [PackageName], the package whose table it is
    in. *)
Definition OwnPackage (p : ClassParser) : Prop :=
  forall ptr st, deref p ptr = Some st -> PackageName st = ptr.1.

(** ** The resolution pass for any visiting order *)

(** Lines 66-76 for a given visiting order.  Each visit is the name of a
    struct together with the sequence in which the loop of line 69 visits the
    interfaces for that struct: Go ranges over [allInterfaces] anew for every
    struct, so the sequences of two visits may differ. *)
Definition resolveVisiting (visits : list (string * list string)) (p : ClassParser)
  : result ClassParser :=
  forEach (fun q (v : string * list string) => resolveStruct v.2 q v.1) visits p.

(** A visiting order of the two sets: every name in [allStructs] is visited,
    and every visit of a struct goes through every name in
    [allInterfaces]. *)
Definition VisitsAll (p : ClassParser) (visits : list (string * list string))
  : Prop :=
  (forall s, s ∈ allStructs p -> exists interfaces, In (s, interfaces) visits) /\
  (forall s interfaces, In (s, interfaces) visits ->
     forall i, i ∈ allInterfaces p -> In i interfaces).

(** The visiting order of [NewClassDiagram] as it is modelled. *)
Definition elementsVisits (p : ClassParser) : list (string * list string) :=
  map (fun s => (s, elements (allInterfaces p))) (elements (allStructs p)).

(** The parser state after the declarations of [Speaker], [Dog] and the
    method of [Dog], before the resolution pass. *)
Definition parsedSample : ClassParser :=
  mkClassParser
    {["pkg" :=
        <["Dog" := mkStruct "pkg" [speakMethod] [mkField "name" "string"] "class"
                     ["Animal"] []]>
          {["Speaker" := mkStruct "pkg" [speakMethod] [] "interface" [] []]}]}
    "pkg" {["pkg.Speaker"]} {["pkg.Dog"]}.

(** * Properties *)

(** ** Strings *)

Section StringFacts.

Lemma append_nil_l (b : string) : "" +:+ b = b.
Proof. reflexivity. Qed.

Lemma append_cons (x : ascii) (a b : string) :
  String x a +:+ b = String x (a +:+ b).
Proof. reflexivity. Qed.

Lemma append_assoc (a b c : string) : (a +:+ b) +:+ c = a +:+ (b +:+ c).
Proof.
  induction a as [|x a IH]; [reflexivity |].
  now rewrite !append_cons, IH.
Qed.

Lemma append_nil_r (a : string) : a +:+ "" = a.
Proof.
  induction a as [|x a IH]; [reflexivity |].
  now rewrite append_cons, IH.
Qed.

Lemma length_append (a b : string) :
  String.length (a +:+ b) = String.length a + String.length b.
Proof.
  induction a as [|x a IH]; [reflexivity |].
  rewrite append_cons. simpl. now rewrite IH.
Qed.

Lemma substring_all (b : string) : String.substring 0 (String.length b) b = b.
Proof. induction b as [|x b IH]; simpl; [reflexivity | now rewrite IH]. Qed.

Lemma substring_skip (a b : string) (m : nat) :
  String.substring (String.length a) m (a +:+ b) = String.substring 0 m b.
Proof.
  induction a as [|x a IH]; [reflexivity |].
  rewrite append_cons. simpl. exact IH.
Qed.

Lemma HasSuffix_append (a b : string) : HasSuffix (a +:+ b) b = true.
Proof.
  unfold HasSuffix. rewrite length_append.
  apply andb_true_intro; split.
  - apply Nat.leb_le. lia.
  - replace (String.length a + String.length b - String.length b)
      with (String.length a) by lia.
    rewrite substring_skip, substring_all. apply String.eqb_refl.
Qed.

Lemma prefix_append (a b : string) : String.prefix a (a +:+ b) = true.
Proof.
  induction a as [|x a IH].
  - now destruct b.
  - rewrite append_cons. simpl.
    destruct (ascii_dec x x); [exact IH | congruence].
Qed.

(** [strings.Contains c "."] looks for the separator byte. *)
Lemma Contains_dot (c : string) : Contains c "." = hasSeparator c.
Proof.
  unfold hasSeparator.
  induction c as [|x c IH]; [reflexivity |].
  change (Contains (String x c) ".")
    with (String.prefix "." (String x c) || Contains c ".").
  change (existsb (Ascii.eqb ".") (list_ascii_of_string (String x c)))
    with (Ascii.eqb "." x || existsb (Ascii.eqb ".") (list_ascii_of_string c)).
  rewrite IH. f_equal.
  change (String.prefix "." (String x c))
    with (if ascii_dec "." x then String.prefix "" c else false).
  destruct (ascii_dec "." x) as [<-|Hne].
  - now destruct c.
  - symmetry. now apply Ascii.eqb_neq.
Qed.

Lemma hasSeparator_append (a b : string) :
  hasSeparator (a +:+ b) = hasSeparator a || hasSeparator b.
Proof.
  unfold hasSeparator. induction a as [|x a IH]; [reflexivity |].
  rewrite append_cons. simpl. rewrite IH. now rewrite orb_assoc.
Qed.

Lemma concatAll_app (xs ys : list string) :
  concatAll (xs ++ ys) = concatAll xs +:+ concatAll ys.
Proof.
  induction xs as [|x xs IH]; [reflexivity |].
  change (x +:+ concatAll (xs ++ ys) = (x +:+ concatAll xs) +:+ concatAll ys).
  now rewrite IH, append_assoc.
Qed.

End StringFacts.

(** ** The monad of outcomes *)

Lemma bind_Ok {A B : Type} (r : result A) (k : A -> result B) (b : B) :
  r ≫= k = Ok b -> exists a, r = Ok a /\ k a = Ok b.
Proof. destruct r as [a|]; [eauto | discriminate]. Qed.

Lemma forEach_cons {A S : Type} (body : S -> A -> result S) (x : A) (xs : list A)
    (s : S) :
  forEach body (x :: xs) s = body s x ≫= forEach body xs.
Proof. reflexivity. Qed.

Lemma mapM_cons {A B : Type} (f : A -> result B) (x : A) (xs : list A) :
  mapM f (x :: xs) = y ← f x; ys ← mapM f xs; Ok (y :: ys).
Proof. reflexivity. Qed.

Lemma forEach_app {A S : Type} (body : S -> A -> result S) (xs ys : list A) (s : S) :
  forEach body (xs ++ ys) s = forEach body xs s ≫= forEach body ys.
Proof.
  revert s. induction xs as [|x xs IH]; intros s; simpl; [reflexivity |].
  destruct (body s x) as [s'|]; simpl; [apply IH | reflexivity].
Qed.

(** A loop whose body never panics on the elements of the list returns. *)
Lemma forEach_total {A S : Type} (body : S -> A -> result S) (xs : list A) :
  (forall s x, In x xs -> exists s', body s x = Ok s') ->
  forall s, exists s', forEach body xs s = Ok s'.
Proof.
  induction xs as [|x xs IH]; intros Hbody s; simpl; [eauto |].
  destruct (Hbody s x) as [s' ->]; [now left |]. simpl.
  apply IH. intros s0 y Hy. apply Hbody. now right.
Qed.

(** An invariant of the loop state kept by every iteration holds at the end. *)
Lemma forEach_invariant {A S : Type} (body : S -> A -> result S) (I : S -> Prop)
    (xs : list A) :
  (forall s x s', In x xs -> I s -> body s x = Ok s' -> I s') ->
  forall s s', I s -> forEach body xs s = Ok s' -> I s'.
Proof.
  induction xs as [|x xs IH]; intros Hbody s s' Hs Hrun; simpl in Hrun.
  - now inversion Hrun; subst.
  - apply bind_Ok in Hrun as (s1 & H1 & Hrest).
    eapply IH; [| | exact Hrest].
    + intros s0 y s0' Hy. apply Hbody. now right.
    + eapply Hbody; [now left | exact Hs | exact H1].
Qed.

(** ** The renderer *)

Ltac flatten_appends :=
  rewrite ?append_assoc, ?append_nil_r, ?append_nil_l.

Lemma WriteLineWithDepth_0 (lsb str : string) :
  WriteLineWithDepth lsb 0 str = lsb +:+ str +:+ nl.
Proof. unfold WriteLineWithDepth, WriteString. simpl Repeat. now flatten_appends. Qed.

Lemma WriteLineWithDepth_1 (lsb str : string) :
  WriteLineWithDepth lsb 1 str = lsb +:+ tab +:+ str +:+ nl.
Proof. unfold WriteLineWithDepth, WriteString. simpl Repeat. now flatten_appends. Qed.

Lemma WriteLineWithDepth_2 (lsb str : string) :
  WriteLineWithDepth lsb 2 str = lsb +:+ tab +:+ tab +:+ str +:+ nl.
Proof. unfold WriteLineWithDepth, WriteString. simpl Repeat. now flatten_appends. Qed.

Lemma writeGroup_closed (str group : string) :
  writeGroup str group = str +:+ memberGroup group.
Proof.
  unfold writeGroup, memberGroup.
  destruct (0 <? String.length group)%nat.
  - apply WriteLineWithDepth_0.
  - now rewrite append_nil_r.
Qed.

Section EdgeLoops.

Variables (st : Struct) (pack name : string).

Lemma composition_loop (cs : list string) (composition : string) :
  fold_left (renderComposition st pack name) cs composition =
  composition +:+
  concatAll
    (map (fun c => qualifiedSource (PackageName st) c +:+ " *-- " +:+
                   pack +:+ "." +:+ name +:+ nl) cs).
Proof.
  revert composition. induction cs as [|c cs IH]; intros composition.
  - simpl. now rewrite append_nil_r.
  - simpl fold_left. rewrite IH. unfold renderComposition.
    rewrite WriteLineWithDepth_0, Contains_dot. unfold qualifiedSource.
    simpl map. simpl concatAll.
    destruct (hasSeparator c); simpl negb; now flatten_appends.
Qed.

Lemma extends_loop (cs : list string) (extends : string) :
  fold_left (renderExtends st pack name) cs extends =
  extends +:+
  concatAll
    (map (fun c => qualifiedSource (PackageName st) c +:+ " <|-- " +:+
                   pack +:+ "." +:+ name +:+ nl) cs).
Proof.
  revert extends. induction cs as [|c cs IH]; intros extends.
  - simpl. now rewrite append_nil_r.
  - simpl fold_left. rewrite IH. unfold renderExtends.
    rewrite WriteLineWithDepth_0, Contains_dot. unfold qualifiedSource.
    simpl map. simpl concatAll.
    destruct (hasSeparator c); simpl negb; now flatten_appends.
Qed.

End EdgeLoops.

(** A qualified source always carries a separator. *)
Lemma qualifiedSource_hasSeparator (owner c : string) :
  hasSeparator (qualifiedSource owner c) = true.
Proof.
  unfold qualifiedSource. destruct (hasSeparator c) eqn:Hc; [exact Hc |].
  rewrite !hasSeparator_append. apply orb_true_iff. right.
  apply orb_true_iff. now left.
Qed.

(** One iteration of the loop over the types appends the type's declaration
    to [str] and the type's edge lines to the two edge builders. *)
Lemma renderStructure_closed (pack : string) (str composition extends : string)
    (entry : string * Struct) :
  renderStructure pack (str, composition, extends) entry =
  block ← typeDeclaration entry;
  Ok (str +:+ block,
      composition +:+ compositionEdges pack entry,
      extends +:+ extendsEdges pack entry).
Proof.
  destruct entry as [name st].
  unfold renderStructure, typeDeclaration, compositionEdges, extendsEdges.
  simpl fst; simpl snd.
  destruct (forEach renderField (Fields st) ("", "")) as [[privF pubF]|];
    [| reflexivity].
  simpl mbind.
  destruct (forEach renderMethod (Functions st) ("", "")) as [[privM pubM]|];
    [| reflexivity].
  simpl mbind.
  rewrite composition_loop, extends_loop, !WriteLineWithDepth_1,
    !writeGroup_closed.
  now flatten_appends.
Qed.

Lemma renderStructures_closed (pack : string) (structures : list (string * Struct))
    (str composition extends : string) :
  forEach (renderStructure pack) structures (str, composition, extends) =
  blocks ← mapM typeDeclaration structures;
  Ok (str +:+ concatAll blocks,
      composition +:+ concatAll (map (compositionEdges pack) structures),
      extends +:+ concatAll (map (extendsEdges pack) structures)).
Proof.
  revert str composition extends.
  induction structures as [|entry structures IH]; intros str composition extends.
  - simpl. now rewrite !append_nil_r.
  - rewrite forEach_cons, renderStructure_closed, mapM_cons.
    destruct (typeDeclaration entry) as [block|]; [| reflexivity].
    simpl mbind. rewrite IH.
    destruct (mapM typeDeclaration structures) as [blocks|]; [| reflexivity].
    simpl. now flatten_appends.
Qed.

(** The text of a namespace: header, type declarations, closing line, and
    only then the composition edges and the extends edges. *)
Lemma renderPackage_closed (pack : string) (structures : list (string * Struct))
    (str : string) :
  structures <> [] ->
  renderPackage str (pack, structures) =
  blocks ← mapM typeDeclaration structures;
  Ok (str +:+ "namespace " +:+ pack +:+ " {" +:+ nl +:+
      concatAll blocks +:+
      "}" +:+ nl +:+
      concatAll (map (compositionEdges pack) structures) +:+ nl +:+
      concatAll (map (extendsEdges pack) structures) +:+ nl).
Proof.
  intros Hne. unfold renderPackage.
  destruct structures as [|entry structures]; [congruence |].
  change (0 <? length (entry :: structures))%nat with true. cbv iota.
  rewrite renderStructures_closed.
  destruct (mapM typeDeclaration (entry :: structures)) as [blocks|];
    [| reflexivity].
  simpl mbind. rewrite !WriteLineWithDepth_0. now flatten_appends.
Qed.

(** Every iteration of the loop over the packages only appends to [str]. *)
Lemma renderPackage_appends (str : string) (entry : string * list (string * Struct))
    (str' : string) :
  renderPackage str entry = Ok str' -> exists written, str' = str +:+ written.
Proof.
  destruct entry as [pack structures]. destruct structures as [|e structures].
  - simpl. intros [= <-]. exists "". now rewrite append_nil_r.
  - rewrite renderPackage_closed by congruence. intros H.
    apply bind_Ok in H as (blocks & _ & [= <-]). eauto.
Qed.

Lemma renderPackages_appends (packages : list (string * list (string * Struct)))
    (str str' : string) :
  forEach renderPackage packages str = Ok str' ->
  exists written, str' = str +:+ written.
Proof.
  revert str. induction packages as [|entry packages IH]; intros str; simpl.
  - intros [= <-]. exists "". now rewrite append_nil_r.
  - intros H. apply bind_Ok in H as (str1 & H1 & Hrest).
    apply renderPackage_appends in H1 as (w1 & ->).
    apply IH in Hrest as (w2 & ->). exists (w1 +:+ w2). now rewrite append_assoc.
Qed.

Lemma renderAll_markers (packages : list (string * list (string * Struct)))
    (text : string) :
  renderAll packages = Ok text ->
  exists body, text = "@startuml" +:+ nl +:+ body +:+ "@enduml".
Proof.
  unfold renderAll. intros H. apply bind_Ok in H as (str & Hrun & [= <-]).
  apply renderPackages_appends in Hrun as (written & ->).
  exists written. rewrite WriteLineWithDepth_0. unfold WriteString.
  now flatten_appends.
Qed.

(** *** Totality on well-formed models *)

Lemma accessModifier_total (name : string) :
  nonEmpty name = true -> exists am, accessModifier name = Ok am.
Proof. destruct name as [|c rest]; [discriminate | intros _; simpl; eauto]. Qed.

Lemma renderField_total (acc : string * string) (field : Field) :
  nonEmpty (Field_Name field) = true -> exists acc', renderField acc field = Ok acc'.
Proof.
  intros Hname. destruct acc as [priv pub]. unfold renderField.
  destruct (accessModifier_total _ Hname) as [am ->]. simpl mbind.
  destruct (String.eqb am "-"); eauto.
Qed.

Lemma renderMethod_total (acc : string * string) (method : Function) :
  nonEmpty (Function_Name method) = true ->
  exists acc', renderMethod acc method = Ok acc'.
Proof.
  intros Hname. destruct acc as [priv pub]. unfold renderMethod.
  destruct (accessModifier_total _ Hname) as [am ->]. simpl mbind.
  destruct (String.eqb am "-"); eauto.
Qed.

Lemma typeDeclaration_total (entry : string * Struct) :
  namedMembers entry.2 = true -> exists block, typeDeclaration entry = Ok block.
Proof.
  unfold namedMembers, typeDeclaration. intros H.
  apply andb_true_iff in H as [Hf Hm].
  rewrite forallb_forall in Hf, Hm.
  destruct (forEach_total renderField (Fields entry.2)) with (s := ("", ""))
    as [[privF pubF] ->].
  { intros acc f Hin. apply renderField_total, Hf, Hin. }
  destruct (forEach_total renderMethod (Functions entry.2)) with (s := ("", ""))
    as [[privM pubM] ->].
  { intros acc m Hin. apply renderMethod_total, Hm, Hin. }
  simpl. eauto.
Qed.

Lemma mapM_total {A B : Type} (f : A -> result B) (xs : list A) :
  (forall x, In x xs -> exists y, f x = Ok y) -> exists ys, mapM f xs = Ok ys.
Proof.
  induction xs as [|x xs IH]; intros Hf; [simpl; eauto |].
  rewrite mapM_cons. destruct (Hf x) as [y ->]; [now left |].
  destruct IH as [ys ->]; [intros z Hz; apply Hf; now right |].
  simpl. eauto.
Qed.

Lemma renderPackage_total (str pack : string) (structures : list (string * Struct)) :
  forallb (fun e : string * Struct => namedMembers e.2) structures = true ->
  exists str', renderPackage str (pack, structures) = Ok str'.
Proof.
  intros Hwf. destruct structures as [|e structures]; [simpl; eauto |].
  rewrite renderPackage_closed by congruence.
  rewrite forallb_forall in Hwf.
  destruct (mapM_total typeDeclaration (e :: structures)) as [blocks ->].
  { intros x Hx. apply typeDeclaration_total, Hwf, Hx. }
  simpl. eauto.
Qed.

Lemma renderAll_total (packages : list (string * list (string * Struct))) :
  forallb (fun e : string * list (string * Struct) =>
             forallb (fun e' : string * Struct => namedMembers e'.2) e.2)
    packages = true ->
  exists text, renderAll packages = Ok text.
Proof.
  intros Hwf. unfold renderAll. rewrite forallb_forall in Hwf.
  destruct (forEach_total renderPackage packages)
    with (s := WriteLineWithDepth "" 0 "@startuml") as [str ->].
  { intros s [pack structures] Hin. apply renderPackage_total.
    apply (Hwf _ Hin). }
  simpl. eauto.
Qed.

Lemma forallb_map {A B : Type} (f : B -> bool) (g : A -> B) (xs : list A) :
  forallb f (map g xs) = forallb (fun x => f (g x)) xs.
Proof. induction xs as [|x xs IH]; simpl; [reflexivity | now rewrite IH]. Qed.

Lemma Render_wellFormed (p : ClassParser) :
  wellFormed p = true -> exists text, Render p = Ok text.
Proof.
  intros Hwf. unfold Render. apply renderAll_total.
  rewrite forallb_map. exact Hwf.
Qed.

Lemma Render_has_markers (p : ClassParser) (text : string) :
  Render p = Ok text ->
  String.prefix ("@startuml" +:+ nl) text = true /\
  HasSuffix text "@enduml" = true.
Proof.
  intros H. apply renderAll_markers in H as (body & ->). split.
  - rewrite <- (append_assoc "@startuml" nl). apply prefix_append.
  - rewrite <- !append_assoc. apply HasSuffix_append.
Qed.

(** ** Claims about the renderer *)

(** C3 (the code departs from it).  A method with exactly one return value is
    written with nothing after its parameter list: [returnValues] stays empty
    unless there are two or more return values, so [Speak() string] is
    rendered as [+ Speak() ] and its return type is lost. *)
Theorem single_return_type_dropped :
  (forall name params r, returnValues (mkFunction name params [r]) = "") /\
  renderMethod ("", "") speakMethod = Ok ("", tab +:+ tab +:+ "+ Speak() " +:+ nl) /\
  (text ← Render dogModel; Ok (lines text)) =
  Ok ["@startuml"; "namespace pkg {"; "    class Dog {"; "        - name string";
      ""; "        + Speak() "; ""; "    }"; "}"; "pkg.Animal *-- pkg.Dog"; "";
      "pkg.Speaker <|-- pkg.Dog"; ""; "@enduml"].
Proof.
  split; [reflexivity |]. split; vm_compute; reflexivity.
Qed.

(** C4, counterexample.  The name [_id] is marked [+] although its first
    character is not an upper-case letter: "public iff the first character is
    upper-case" fails. *)
Lemma underscore_marked_public :
  ~ (accessModifier "_id" = Ok "+" <->
     (r ← firstRune "_id"; Ok (IsUpper r)) = Ok true).
Proof. intros [H _]. specialize (H eq_refl). vm_compute in H. discriminate. Qed.

(** C4, amended.  For a field or method whose name starts with an ASCII byte,
    the marker is [-] exactly when that byte is a lower-case letter a-z and
    [+] otherwise (an underscore, a digit or any other non-letter included);
    the member's line starts with the marker and goes to the private group
    for [-] and to the public group for [+]. *)
Theorem visibility_marker (c : ascii) (rest : string) :
  (N_of_ascii c < 128)%N ->
  let name := String c rest in
  let marker :=
    if ((97 <=? N_of_ascii c) && (N_of_ascii c <=? 122))%N then "-" else "+" in
  accessModifier name = Ok marker /\
  (forall type priv pub,
     renderField (priv, pub) (mkField name type) =
     let line := tab +:+ tab +:+ marker +:+ " " +:+ name +:+ " " +:+ type +:+ nl in
     Ok (if String.eqb marker "-" then (priv +:+ line, pub)
         else (priv, pub +:+ line))) /\
  (forall params returns priv pub,
     renderMethod (priv, pub) (mkFunction name params returns) =
     let method := mkFunction name params returns in
     let line :=
       tab +:+ tab +:+ marker +:+ " " +:+ name +:+ "(" +:+
       Join (parameterList method) ", " +:+ ") " +:+ returnValues method +:+ nl in
     Ok (if String.eqb marker "-" then (priv +:+ line, pub)
         else (priv, pub +:+ line))).
Proof.
  intros Hascii name marker.
  assert (Ham : accessModifier name = Ok marker).
  { unfold accessModifier, name, marker. simpl. f_equal.
    unfold IsLower.
    replace (N_of_ascii c =? 181)%N with false
      by (symmetry; apply N.eqb_neq; lia).
    replace (223 <=? N_of_ascii c)%N with false
      by (symmetry; apply N.leb_gt; lia).
    replace (248 <=? N_of_ascii c)%N with false
      by (symmetry; apply N.leb_gt; lia).
    now rewrite !orb_false_r. }
  split; [exact Ham |]. split.
  - intros type priv pub. unfold renderField. simpl Field_Name. rewrite Ham.
    simpl mbind. simpl Field_Type.
    destruct (String.eqb marker "-"); rewrite WriteLineWithDepth_2;
      cbv zeta; now flatten_appends.
  - intros params returns priv pub. unfold renderMethod. simpl Function_Name.
    rewrite Ham. simpl mbind.
    destruct (String.eqb marker "-"); rewrite WriteLineWithDepth_2;
      cbv zeta; now flatten_appends.
Qed.

(** The marker of three sample names. *)
Lemma visibility_marker_witness :
  accessModifier "name" = Ok "-" /\ accessModifier "Name" = Ok "+" /\
  accessModifier "_id" = Ok "+".
Proof.
  split; [| split].
  - apply (visibility_marker "n" "ame"). vm_compute. reflexivity.
  - apply (visibility_marker "N" "ame"). vm_compute. reflexivity.
  - apply (visibility_marker "_" "id"). vm_compute. reflexivity.
Defined.

(** C5, counterexample.  The empty model is not rendered with a blank line
    between the two markers. *)
Lemma no_blank_line_between_markers : Render emptyModel <> Ok markersAroundBlankLine.
Proof. vm_compute. discriminate. Qed.

(** C5, amended.  A model with no namespace is rendered as the opening marker
    [@startuml], one line break and the closing marker [@enduml]; whenever the
    renderer produces a text, and it does so for every well-formed model, the
    text starts with the opening marker line and ends with the closing
    marker. *)
Theorem Render_markers (p : ClassParser) :
  (structure p = ∅ -> Render p = Ok ("@startuml" +:+ nl +:+ "@enduml")) /\
  (wellFormed p = true ->
   exists text, Render p = Ok text /\
     String.prefix ("@startuml" +:+ nl) text = true /\
     HasSuffix text "@enduml" = true) /\
  (forall text, Render p = Ok text ->
     String.prefix ("@startuml" +:+ nl) text = true /\
     HasSuffix text "@enduml" = true).
Proof.
  split; [| split].
  - intros Hempty. unfold Render, range. rewrite Hempty, map_to_list_empty.
    reflexivity.
  - intros Hwf. destruct (Render_wellFormed p Hwf) as [text Htext].
    exists text. split; [exact Htext |]. now apply (Render_has_markers p).
  - apply Render_has_markers.
Qed.

(** The empty model and the model of [Dog]. *)
Lemma Render_markers_witness :
  Render emptyModel = Ok ("@startuml" +:+ nl +:+ "@enduml") /\
  exists text, Render dogModel = Ok text /\
    String.prefix ("@startuml" +:+ nl) text = true /\
    HasSuffix text "@enduml" = true.
Proof.
  split.
  - apply (proj1 (Render_markers emptyModel)). reflexivity.
  - apply (proj1 (proj2 (Render_markers dogModel))). vm_compute. reflexivity.
Defined.

(** C6, counterexample.  In the text of [dogModel] the edge lines come after
    the line that closes the namespace block, not before it. *)
Lemma edges_not_inside_block :
  (text ← Render dogModel; Ok (edgesInsideBlock (lines text))) = Ok false.
Proof. vm_compute. reflexivity. Qed.

(** C6, amended.  The text of a non-empty namespace is its header line, the
    declarations of all its types, the line closing the namespace block, and
    after that line the composition edges of all its types, a line break, the
    extends edges of all its types and a line break. *)
Theorem edges_follow_namespace_block (pack : string) (structures : gmap string Struct)
    (str : string) :
  structures <> ∅ ->
  renderPackage str (pack, range structures) =
  blocks ← mapM typeDeclaration (range structures);
  Ok (str +:+ "namespace " +:+ pack +:+ " {" +:+ nl +:+
      concatAll blocks +:+
      "}" +:+ nl +:+
      concatAll (map (compositionEdges pack) (range structures)) +:+ nl +:+
      concatAll (map (extendsEdges pack) (range structures)) +:+ nl).
Proof.
  intros Hne. apply renderPackage_closed. unfold range.
  intros Hnil. apply Hne. now apply map_to_list_empty_iff.
Qed.

(** The namespace of [Dog], line by line. *)
Lemma edges_follow_namespace_block_witness :
  renderPackage "" ("pkg", range ({["Dog" := dogStruct]} : gmap string Struct)) =
  Ok ("namespace pkg {" +:+ nl +:+
      "    class Dog {" +:+ nl +:+
      "        - name string" +:+ nl +:+ nl +:+
      "        + Speak() " +:+ nl +:+ nl +:+
      "    }" +:+ nl +:+
      "}" +:+ nl +:+
      "pkg.Animal *-- pkg.Dog" +:+ nl +:+ nl +:+
      "pkg.Speaker <|-- pkg.Dog" +:+ nl +:+ nl).
Proof.
  rewrite (edges_follow_namespace_block "pkg" {["Dog" := dogStruct]} "").
  - vm_compute. reflexivity.
  - apply (insert_non_empty (M := gmap string)).
Defined.

(** C7.  The loops over [Composition] and [Extends] write one line per stored
    reference; the line's source is the reference itself when it contains a
    dot and the owning type's [PackageName], a dot and the reference when it
    does not, so the source always carries a namespace. *)
Theorem edge_sources_qualified (st : Struct) (pack name : string)
    (composition extends : string) :
  fold_left (renderComposition st pack name) (Composition st) composition =
    composition +:+
    concatAll
      (map (fun c => qualifiedSource (PackageName st) c +:+ " *-- " +:+
                     pack +:+ "." +:+ name +:+ nl) (Composition st)) /\
  fold_left (renderExtends st pack name) (Extends st) extends =
    extends +:+
    concatAll
      (map (fun c => qualifiedSource (PackageName st) c +:+ " <|-- " +:+
                     pack +:+ "." +:+ name +:+ nl) (Extends st)) /\
  forall c,
    hasSeparator (qualifiedSource (PackageName st) c) = true /\
    qualifiedSource (PackageName st) c =
      (if existsb (Ascii.eqb ".") (list_ascii_of_string c) then c
       else PackageName st +:+ "." +:+ c).
Proof.
  split; [apply composition_loop |]. split; [apply extends_loop |].
  intros c. split; [apply qualifiedSource_hasSeparator | reflexivity].
Qed.

(** C8.  On a well-formed model, one whose field and method names are not
    empty, [Render] returns a text: the only operation of the renderer that
    can panic is the indexing of a member name's first byte. *)
Theorem Render_total (p : ClassParser) :
  wellFormed p = true -> exists text, Render p = Ok text.
Proof. apply Render_wellFormed. Qed.

(** The empty model and the model of [Dog] are rendered. *)
Lemma Render_total_witness :
  (exists text, Render emptyModel = Ok text) /\
  (exists text, Render dogModel = Ok text).
Proof.
  split.
  - apply (Render_total emptyModel). vm_compute. reflexivity.
  - apply (Render_total dogModel). vm_compute. reflexivity.
Defined.

(** ** The table of types *)

Lemma deref_store (p : ClassParser) (ptr ptr' : StructPtr) (st : Struct) :
  deref (store p ptr st) ptr' = if decide (ptr' = ptr) then Some st else deref p ptr'.
Proof.
  destruct ptr as [pk nm], ptr' as [pk' nm']. unfold deref, store. simpl.
  destruct (decide (pk = pk')) as [<-|Hpk].
  - rewrite lookup_insert_eq. simpl.
    destruct (decide (nm = nm')) as [<-|Hnm].
    + rewrite lookup_insert_eq. now rewrite decide_True.
    + rewrite lookup_insert_ne by exact Hnm.
      rewrite decide_False by congruence.
      destruct (structure p !! pk); [reflexivity | apply lookup_empty].
  - rewrite lookup_insert_ne by exact Hpk.
    now rewrite decide_False by congruence.
Qed.

Lemma update_Ok (ptr : StructPtr) (f : Struct -> Struct) (p p' : ClassParser) :
  update ptr f p = Ok p' ->
  exists st, deref p ptr = Some st /\ p' = store p ptr (f st).
Proof.
  unfold update. destruct (deref p ptr) as [st|]; [| discriminate].
  intros [= <-]. eauto.
Qed.

Lemma Effect_None (p : ClassParser) : Effect p p None.
Proof. now split. Qed.

(** [p.getOrCreateStruct(name)] followed by a method of the pointer it
    returns. *)
Lemma getOrCreate_update (p p' : ClassParser) (name : string) (f : Struct -> Struct) :
  ('(p1, ptr) ← getOrCreateStruct p name; update ptr f p1) = Ok p' ->
  Effect p p' (Some (name, f)) /\
  allInterfaces p' = allInterfaces p /\ allStructs p' = allStructs p.
Proof.
  intros H. apply bind_Ok in H as ([p1 ptr] & Hget & Hupd).
  unfold getOrCreateStruct in Hget.
  destruct (structure p !! currentPackageName p) as [pack|] eqn:Hpack;
    [| discriminate].
  apply update_Ok in Hupd as (st & Hst & ->).
  destruct (pack !! name) as [old|] eqn:Hold; injection Hget as <- <-.
  - assert (Hderef : deref p (currentPackageName p, name) = Some old).
    { unfold deref. simpl. now rewrite Hpack. }
    rewrite Hderef in Hst. injection Hst as <-.
    split; [split; [reflexivity |] | now split].
    intros ptr. rewrite deref_store.
    destruct (decide (ptr = (currentPackageName p, name))) as [->|]; [| reflexivity].
    now rewrite Hderef.
  - assert (Hderef : deref p (currentPackageName p, name) = None).
    { unfold deref. simpl. now rewrite Hpack. }
    rewrite deref_store, decide_True in Hst by reflexivity. injection Hst as <-.
    split; [split; [reflexivity |] | now split].
    intros ptr. rewrite !deref_store.
    destruct (decide (ptr = (currentPackageName p, name))) as [->|]; [| reflexivity].
    now rewrite Hderef.
Qed.

Lemma Effect_compose (p p1 p2 : ClassParser) (name : string) (f g : Struct -> Struct) :
  Effect p p1 (Some (name, f)) -> Effect p1 p2 (Some (name, g)) ->
  Effect p p2 (Some (name, fun st => g (f st))).
Proof.
  intros [Hcur1 H1] [Hcur2 H2]. split; [congruence |].
  intros ptr. rewrite H2, Hcur1, H1.
  destruct (decide (ptr = (currentPackageName p, name))); reflexivity.
Qed.

(** A loop that applies one method per element to the entry [name]. *)
Lemma touch_loop {A : Type} (g : A -> Struct -> Struct) (name : string)
    (xs : list A) (p p' : ClassParser) :
  forEach (fun p x => '(p1, ptr) ← getOrCreateStruct p name; update ptr (g x) p1)
    xs p = Ok p' ->
  allInterfaces p' = allInterfaces p /\ allStructs p' = allStructs p /\
  match xs with
  | [] => p' = p
  | _ :: _ => Effect p p' (Some (name, fun st => fold_left (fun s x => g x s) xs st))
  end.
Proof.
  revert p. induction xs as [|x xs IH]; intros p H.
  - now injection H as <-.
  - rewrite forEach_cons in H. apply bind_Ok in H as (p1 & H1 & Hrest).
    apply getOrCreate_update in H1 as (Heff & HI & HS).
    apply IH in Hrest as (HI' & HS' & Hloop).
    split; [congruence |]. split; [congruence |].
    destruct xs as [|y xs].
    + subst p'. exact Heff.
    + exact (Effect_compose _ _ _ _ _ _ Heff Hloop).
Qed.

Lemma declareType_Effect (p p' : ClassParser) (typeName declarationType : string) :
  declareType p typeName declarationType = Ok p' ->
  Effect p p' (Some (typeName, setType declarationType)).
Proof.
  unfold declareType. intros H.
  apply bind_Ok in H as ([p0 ptr] & Hget & H).
  apply bind_Ok in H as (p1 & Hupd & H).
  assert (Htouch :
    ('(p1, ptr) ← getOrCreateStruct p typeName;
     update ptr (setType declarationType) p1) = Ok p1).
  { rewrite Hget. exact Hupd. }
  apply getOrCreate_update in Htouch as (Heff & _ & _).
  cbv zeta in H.
  destruct (String.eqb declarationType "interface");
    [| destruct (String.eqb declarationType "class")];
    injection H as <-; exact Heff.
Qed.

(** What one declaration does to the table. *)
Lemma parseFileDeclarations_Effect (p p' : ClassParser) (node : ast.Decl) :
  parseFileDeclarations p node = Ok p' -> Effect p p' (declEffect node).
Proof.
  destruct node as [specs|recv name ty|]; simpl.
  - destruct specs as [|[typeName [fields|methods|]|] specs]; try discriminate.
    + intros H. apply bind_Ok in H as (p1 & Hloop & Hdecl).
      apply touch_loop in Hloop as (_ & _ & Hloop).
      apply declareType_Effect in Hdecl.
      destruct fields as [|f fields].
      * now subst p1.
      * exact (Effect_compose _ _ _ _ _ _ Hloop Hdecl).
    + intros H. apply bind_Ok in H as (p1 & Hloop & Hdecl).
      apply touch_loop in Hloop as (_ & _ & Hloop).
      apply declareType_Effect in Hdecl.
      destruct methods as [|f methods].
      * now subst p1.
      * exact (Effect_compose _ _ _ _ _ _ Hloop Hdecl).
    + intros [= <-]. apply Effect_None.
    + intros [= <-]. apply Effect_None.
  - destruct recv as [[|r recv]|]; try discriminate.
    + destruct (ast.Text (ast.Type_ r)) as [|c rest]; [discriminate |].
      intros H.
      set (theType := if Ascii.eqb c "*" then rest else String c rest) in *.
      set (setClass := fun st : Struct =>
             if String.eqb (Type_ st) "" then setType "class" st else st) in *.
      apply bind_Ok in H as ([p0 ptr] & Hget & H).
      apply bind_Ok in H as (p1 & Hupd & H).
      assert (Htouch :
        ('(p1, ptr) ← getOrCreateStruct p theType; update ptr setClass p1) = Ok p1).
      { rewrite Hget. exact Hupd. }
      apply getOrCreate_update in Htouch as ([Hcur Hderef] & _ & _).
      assert (Hptr : ptr = (currentPackageName p, theType)).
      { unfold getOrCreateStruct in Hget.
        destruct (structure p !! currentPackageName p) as [pack|]; [| discriminate].
        destruct (pack !! theType); now injection Hget as _ <-. }
      apply update_Ok in H as (st & Hst & ->).
      split; [exact Hcur |].
      intros ptr'. rewrite deref_store. subst ptr.
      destruct (decide (ptr' = (currentPackageName p, theType))) as [->|Hne].
      * rewrite Hderef, decide_True in Hst by reflexivity.
        injection Hst as <-. reflexivity.
      * rewrite Hderef. now rewrite decide_False.
    + intros [= <-]. apply Effect_None.
  - intros [= <-]. apply Effect_None.
Qed.

(** ** Invariants of the table *)

Lemma deref_Some (p : ClassParser) (pk nm : string) (st : Struct) :
  deref p (pk, nm) = Some st <->
  exists pack, structure p !! pk = Some pack /\ pack !! nm = Some st.
Proof.
  unfold deref. simpl. split.
  - destruct (structure p !! pk) as [pack|]; [eauto | discriminate].
  - intros (pack & -> & H). exact H.
Qed.

Lemma allStructsb_everyStruct (P : Struct -> bool) (p : ClassParser) :
  allStructsb P p = true <-> everyStruct P p.
Proof.
  unfold allStructsb, everyStruct, range. rewrite forallb_forall. split.
  - intros H [pk nm] st Hst. apply deref_Some in Hst as (pack & Hpack & Hst).
    specialize (H (pk, pack)). rewrite forallb_forall in H.
    apply (H ltac:(now apply list_elem_of_In, elem_of_map_to_list) (nm, st)).
    now apply list_elem_of_In, elem_of_map_to_list.
  - intros H [pk pack] Hin. apply list_elem_of_In, elem_of_map_to_list in Hin.
    apply forallb_forall. intros [nm st] Hin'.
    apply list_elem_of_In, elem_of_map_to_list in Hin'.
    apply (H (pk, nm)). apply deref_Some. eauto.
Qed.

(** A change that keeps [P] on an entry that had it, and gives [P] to a new
    entry, keeps [P] on the whole table. *)
Lemma Effect_everyStruct (P : Struct -> bool) (p p' : ClassParser)
    (eff : option (string * (Struct -> Struct))) :
  Effect p p' eff ->
  (forall name f, eff = Some (name, f) ->
     (forall st, P st = true -> P (f st) = true) /\
     P (f (newStruct (currentPackageName p))) = true) ->
  everyStruct P p -> everyStruct P p'.
Proof.
  intros [_ Hderef] Hkeep Hp ptr st Hst. rewrite Hderef in Hst.
  destruct eff as [[name f]|]; [| exact (Hp _ _ Hst)].
  destruct (Hkeep name f eq_refl) as [Hold Hnew].
  destruct (decide (ptr = (currentPackageName p, name))); [| exact (Hp _ _ Hst)].
  injection Hst as <-.
  destruct (deref p ptr) as [old|] eqn:Hptr; simpl.
  - apply Hold. exact (Hp _ _ Hptr).
  - exact Hnew.
Qed.

Lemma update_everyStruct (P : Struct -> bool) (ptr : StructPtr)
    (f : Struct -> Struct) (p p' : ClassParser) :
  (forall st, P st = true -> P (f st) = true) ->
  update ptr f p = Ok p' -> everyStruct P p -> everyStruct P p'.
Proof.
  intros Hf Hupd Hp ptr' st' Hst'.
  apply update_Ok in Hupd as (st & Hst & ->).
  rewrite deref_store in Hst'.
  destruct (decide (ptr' = ptr)).
  - injection Hst' as <-. apply Hf. exact (Hp _ _ Hst).
  - exact (Hp _ _ Hst').
Qed.

(** Entering a package changes no entry. *)
Lemma deref_enter_package (p : ClassParser) (name : string) (ptr : StructPtr) :
  let p1 := mkClassParser (structure p) name (allInterfaces p) (allStructs p) in
  deref
    match structure p1 !! currentPackageName p1 with
    | Some _ => p1
    | None => setStructure p1 (<[currentPackageName p1 := ∅]> (structure p1))
    end ptr = deref p ptr.
Proof.
  simpl. destruct (structure p !! name) as [pack|] eqn:Hpack; [reflexivity |].
  destruct ptr as [pk nm]. unfold deref. simpl.
  destruct (decide (name = pk)) as [<-|Hne].
  - rewrite lookup_insert_eq, Hpack. simpl. apply lookup_empty.
  - now rewrite lookup_insert_ne.
Qed.

Section TableInvariant.

(** [P] is kept by every declaration whose identifiers satisfy [good]. *)
Variables (P : Struct -> bool) (good : ast.Decl -> bool).

Hypothesis declEffect_keeps :
  forall node name f packageName,
    good node = true -> declEffect node = Some (name, f) ->
    (forall st, P st = true -> P (f st) = true) /\
    P (f (newStruct packageName)) = true.

Hypothesis AddToExtends_keeps :
  forall i st, P st = true -> P (AddToExtends i st) = true.

Lemma parseFileDeclarations_everyStruct (p p' : ClassParser) (node : ast.Decl) :
  good node = true -> everyStruct P p ->
  parseFileDeclarations p node = Ok p' -> everyStruct P p'.
Proof.
  intros Hgood Hp Hrun. apply parseFileDeclarations_Effect in Hrun.
  eapply Effect_everyStruct; [exact Hrun | | exact Hp].
  intros name f Heff. now apply declEffect_keeps with (node := node) (name := name).
Qed.

Lemma declarations_everyStruct (decls : list ast.Decl) (p p' : ClassParser) :
  forallb good decls = true -> everyStruct P p ->
  forEach parseFileDeclarations decls p = Ok p' -> everyStruct P p'.
Proof.
  intros Hgood. rewrite forallb_forall in Hgood.
  apply (forEach_invariant _ (everyStruct P)). intros s node s' Hin Hs Hrun.
  eapply parseFileDeclarations_everyStruct; [apply Hgood, Hin | exact Hs | exact Hrun].
Qed.

Lemma parsePackage_everyStruct (p p' : ClassParser) (pack : ast.Package) :
  forallb (fun e : string * ast.File => forallb good (ast.Decls e.2))
    (ast.Files pack) = true ->
  everyStruct P p -> parsePackage p pack = Ok p' -> everyStruct P p'.
Proof.
  intros Hgood Hp. unfold parsePackage. rewrite forallb_forall in Hgood.
  apply (forEach_invariant _ (everyStruct P)).
  - intros s [fileName file] s' Hin Hs. simpl.
    destruct (HasSuffix fileName "_test.go"); simpl.
    + now intros [= <-].
    + intros Hrun.
      eapply declarations_everyStruct; [exact (Hgood _ Hin) | exact Hs | exact Hrun].
  - intros ptr st. rewrite (deref_enter_package p (ast.Name pack) ptr).
    apply Hp.
Qed.

Lemma resolveStruct_everyStruct (interfaces : list string) (p p' : ClassParser)
    (s : string) :
  everyStruct P p -> resolveStruct interfaces p s = Ok p' -> everyStruct P p'.
Proof.
  intros Hp Hrun. unfold resolveStruct in Hrun.
  apply bind_Ok in Hrun as ([st|] & _ & Hrun); [| now injection Hrun as <-].
  revert Hrun. apply (forEach_invariant _ (everyStruct P)); [| exact Hp].
  intros q i q' _ Hq Hstep. unfold resolveInterface in Hstep.
  apply bind_Ok in Hstep as (inter & _ & Hstep).
  destruct (deref q st) as [r|]; [| discriminate].
  apply bind_Ok in Hstep as ([|] & _ & Hstep).
  - eapply update_everyStruct; [apply AddToExtends_keeps | exact Hstep | exact Hq].
  - now injection Hstep as <-.
Qed.

Lemma NewClassDiagram_everyStruct
    (ParseDir : string -> list ast.Package * option error) (directoryPath : string)
    (p : ClassParser) :
  forallb
    (fun pack =>
       forallb (fun e : string * ast.File => forallb good (ast.Decls e.2))
         (ast.Files pack))
    (ParseDir directoryPath).1 = true ->
  NewClassDiagram ParseDir directoryPath = Ok (Some p, None) ->
  everyStruct P p.
Proof.
  unfold NewClassDiagram.
  destruct (ParseDir directoryPath) as [packages [e|]]; [discriminate |].
  simpl fst. intros Hgood Hrun. rewrite forallb_forall in Hgood.
  apply bind_Ok in Hrun as (p1 & Hparse & Hrun).
  apply bind_Ok in Hrun as (p2 & Hresolve & [= <-]).
  assert (Hp1 : everyStruct P p1).
  { revert Hparse. apply (forEach_invariant _ (everyStruct P)).
    - intros s pack s' Hin Hs Hrun.
      eapply parsePackage_everyStruct; [exact (Hgood _ Hin) | exact Hs | exact Hrun].
    - intros ptr st. unfold deref. simpl. now rewrite lookup_empty. }
  revert Hresolve. apply (forEach_invariant _ (everyStruct P)); [| exact Hp1].
  intros s x s' _ Hs Hrun. eapply resolveStruct_everyStruct; [exact Hs | exact Hrun].
Qed.

End TableInvariant.

(** *** The kind of every entry is assigned *)

Lemma Type_AddMethod (method : ast.Field) (st : Struct) :
  Type_ (AddMethod method st) = Type_ st.
Proof.
  unfold AddMethod.
  destruct (ast.AsFuncType (ast.Type_ method)), (ast.Names method); reflexivity.
Qed.

Lemma Type_AddField (field : ast.Field) (st : Struct) :
  Type_ (AddField field st) = Type_ st.
Proof. unfold AddField. destruct (ast.Names field); reflexivity. Qed.

Lemma kindAssigned_declEffect (node : ast.Decl) (name : string)
    (f : Struct -> Struct) (packageName : string) :
  (fun _ : ast.Decl => true) node = true ->
  declEffect node = Some (name, f) ->
  (forall st, kindAssigned st = true -> kindAssigned (f st) = true) /\
  kindAssigned (f (newStruct packageName)) = true.
Proof.
  intros _. destruct node as [specs|recv fname ty|]; simpl; try discriminate.
  - destruct specs as [|[typeName [fields|methods|]|] specs]; try discriminate;
      intros [= <- <-]; split; reflexivity.
  - destruct recv as [[|r recv]|]; try discriminate.
    destruct (ast.Text (ast.Type_ r)) as [|c rest]; [discriminate |].
    intros [= <- <-]. unfold kindAssigned. split.
    + intros st Hst. rewrite Type_AddMethod.
      destruct (String.eqb (Type_ st) ""); [reflexivity | exact Hst].
    + rewrite Type_AddMethod. reflexivity.
Qed.

Lemma kindAssigned_AddToExtends (i : string) (st : Struct) :
  kindAssigned st = true -> kindAssigned (AddToExtends i st) = true.
Proof. intros H; exact H. Qed.

Lemma kindAssigned_cases (st : Struct) :
  kindAssigned st = true <-> Type_ st = "class" \/ Type_ st = "interface".
Proof.
  unfold kindAssigned. rewrite orb_true_iff, !String.eqb_eq. reflexivity.
Qed.

(** *** The member names of every entry are not empty *)

Lemma namedMembers_setType (k : string) (st : Struct) :
  namedMembers (setType k st) = namedMembers st.
Proof. reflexivity. Qed.

Lemma namedMembers_AddField (field : ast.Field) (st : Struct) :
  fieldIdents field = true -> namedMembers st = true ->
  namedMembers (AddField field st) = true.
Proof.
  unfold fieldIdents, namedMembers, AddField. intros Hid Hst.
  destruct (ast.Names field) as [|name names]; [exact Hst |].
  simpl in Hid |- *. apply andb_true_iff in Hid as [Hname _].
  apply andb_true_iff in Hst as [Hf Hm].
  rewrite forallb_app, Hf, Hm. simpl. now rewrite Hname.
Qed.

Lemma namedMembers_AddMethod (method : ast.Field) (st : Struct) :
  fieldIdents method = true -> namedMembers st = true ->
  namedMembers (AddMethod method st) = true.
Proof.
  unfold fieldIdents, namedMembers, AddMethod. intros Hid Hst.
  destruct (ast.AsFuncType (ast.Type_ method)) as [ft|]; [| exact Hst].
  destruct (ast.Names method) as [|name names]; [exact Hst |].
  simpl in Hid |- *. apply andb_true_iff in Hid as [Hname _].
  apply andb_true_iff in Hst as [Hf Hm].
  rewrite forallb_app, Hf, Hm. simpl. now rewrite Hname.
Qed.

Lemma namedMembers_fold (g : ast.Field -> Struct -> Struct) (fields : list ast.Field) :
  (forall f st, fieldIdents f = true -> namedMembers st = true ->
                namedMembers (g f st) = true) ->
  forallb fieldIdents fields = true ->
  forall st, namedMembers st = true ->
  namedMembers (fold_left (fun s f => g f s) fields st) = true.
Proof.
  intros Hg. induction fields as [|f fields IH]; intros Hids st Hst; [exact Hst |].
  simpl in Hids |- *. apply andb_true_iff in Hids as [Hf Hrest].
  apply IH; [exact Hrest |]. now apply Hg.
Qed.

Lemma namedMembers_declEffect (node : ast.Decl) (name : string)
    (f : Struct -> Struct) (packageName : string) :
  declIdents node = true ->
  declEffect node = Some (name, f) ->
  (forall st, namedMembers st = true -> namedMembers (f st) = true) /\
  namedMembers (f (newStruct packageName)) = true.
Proof.
  assert (Hnew : namedMembers (newStruct packageName) = true) by reflexivity.
  revert Hnew. generalize (newStruct packageName) as fresh. intros fresh Hnew.
  destruct node as [specs|recv fname ty|]; simpl; try discriminate.
  - destruct specs as [|[typeName [fields|methods|]|] specs]; try discriminate;
      intros Hids [= <- <-]; split; intros; rewrite namedMembers_setType;
      (apply namedMembers_fold;
       [first [exact namedMembers_AddField | exact namedMembers_AddMethod]
       | exact Hids | assumption]).
  - destruct recv as [[|r recv]|]; try discriminate.
    destruct (ast.Text (ast.Type_ r)) as [|c rest]; [discriminate |].
    intros Hid [= <- <-].
    assert (Hfield :
      fieldIdents (ast.mkField [fname] (ast.mkExpr "" (Some ty))) = true).
    { unfold fieldIdents. simpl. now rewrite Hid. }
    split; [intros st Hst |]; apply namedMembers_AddMethod; try exact Hfield.
    + destruct (String.eqb (Type_ st) ""); [rewrite namedMembers_setType |];
        exact Hst.
    + destruct (String.eqb (Type_ fresh) ""); [rewrite namedMembers_setType |];
        exact Hnew.
Qed.

Lemma namedMembers_AddToExtends (i : string) (st : Struct) :
  namedMembers st = true -> namedMembers (AddToExtends i st) = true.
Proof. intros H; exact H. Qed.

(** A model built from a declaration tree whose identifiers are not empty is
    well formed. *)
Lemma NewClassDiagram_wellFormed
    (ParseDir : string -> list ast.Package * option error) (directoryPath : string)
    (p : ClassParser) :
  forallb packageIdents (ParseDir directoryPath).1 = true ->
  NewClassDiagram ParseDir directoryPath = Ok (Some p, None) ->
  wellFormed p = true.
Proof.
  intros Hids Hrun. apply allStructsb_everyStruct.
  exact (NewClassDiagram_everyStruct namedMembers declIdents
           namedMembers_declEffect namedMembers_AddToExtends
           ParseDir directoryPath p Hids Hrun).
Qed.

(** The renderer returns on every model the builder returns. *)
Lemma Render_after_NewClassDiagram
    (ParseDir : string -> list ast.Package * option error) (directoryPath : string)
    (p : ClassParser) :
  forallb packageIdents (ParseDir directoryPath).1 = true ->
  NewClassDiagram ParseDir directoryPath = Ok (Some p, None) ->
  exists text, Render p = Ok text.
Proof.
  intros Hids Hrun. apply Render_wellFormed.
  exact (NewClassDiagram_wellFormed ParseDir directoryPath p Hids Hrun).
Qed.

(** A member without a name makes the renderer panic: the well-formedness
    of the model is needed. *)
Lemma Render_panics_on_empty_name :
  Render
    (mkClassParser
       {["pkg" := {["T" := mkStruct "pkg" [] [mkField "" "int"] "class" [] []]}]}
       "pkg" ∅ ∅) = Panic.
Proof. vm_compute. reflexivity. Qed.

Lemma forallb_const_true {A : Type} (xs : list A) :
  forallb (fun _ => true) xs = true.
Proof. induction xs; simpl; auto. Qed.

Lemma NewClassDiagram_kindsAssigned
    (ParseDir : string -> list ast.Package * option error) (directoryPath : string)
    (p : ClassParser) :
  NewClassDiagram ParseDir directoryPath = Ok (Some p, None) ->
  everyStruct kindAssigned p.
Proof.
  apply (NewClassDiagram_everyStruct kindAssigned (fun _ => true)
           kindAssigned_declEffect kindAssigned_AddToExtends).
  apply forallb_forall. intros pack _.
  apply forallb_forall. intros e _. apply forallb_const_true.
Qed.

(** ** Claims about the builder *)

(** C10.  If every entry of the table has the kind ["class"] or
    ["interface"], so has every entry after any sequence of declarations has
    been processed; and every entry of a model returned by [NewClassDiagram]
    has the kind ["class"] or ["interface"], never the empty one. *)
Theorem kinds_assigned :
  (forall decls p p',
     kindsAssigned p = true ->
     forEach parseFileDeclarations decls p = Ok p' ->
     kindsAssigned p' = true) /\
  (forall ParseDir directoryPath p ptr st,
     NewClassDiagram ParseDir directoryPath = Ok (Some p, None) ->
     deref p ptr = Some st ->
     Type_ st = "class" \/ Type_ st = "interface").
Proof.
  split.
  - intros decls p p' Hp Hrun. apply allStructsb_everyStruct.
    apply allStructsb_everyStruct in Hp.
    eapply (declarations_everyStruct kindAssigned (fun _ => true)
              kindAssigned_declEffect);
      [apply forallb_const_true | exact Hp | exact Hrun].
  - intros ParseDir directoryPath p ptr st Hrun Hst.
    apply kindAssigned_cases.
    exact (NewClassDiagram_kindsAssigned ParseDir directoryPath p Hrun ptr st Hst).
Qed.

(** Four declarations, two of them methods seen before their type. *)
Lemma kinds_assigned_witness :
  exists p',
    forEach parseFileDeclarations [speakerDecl; celsiusSpeak; dogSpeak; dogDecl] inPkg
      = Ok p' /\
    kindsAssigned p' = true.
Proof.
  eexists. split.
  - vm_compute. reflexivity.
  - apply (proj1 kinds_assigned
             [speakerDecl; celsiusSpeak; dogSpeak; dogDecl] inPkg).
    + vm_compute. reflexivity.
    + vm_compute. reflexivity.
Defined.

(** C2, counterexample.  [Shape] is first seen as the receiver of a method
    and gets the kind ["class"]; the later declaration of [Shape] as an
    interface replaces that kind by ["interface"].  In the same way [Dog],
    declared as a struct, becomes an interface when a second declaration of
    the name (in another file of the package, say) is an interface. *)
Lemma declaration_replaces_kind :
  (p1 ← parseFileDeclarations inPkg shapeArea;
   Ok (Type_ <$> deref p1 ("pkg", "Shape"))) = Ok (Some "class") /\
  (p1 ← parseFileDeclarations inPkg shapeArea;
   p2 ← parseFileDeclarations p1 shapeDecl;
   Ok (Type_ <$> deref p2 ("pkg", "Shape"))) = Ok (Some "interface") /\
  (p1 ← parseFileDeclarations inPkg dogDecl;
   Ok (Type_ <$> deref p1 ("pkg", "Dog"))) = Ok (Some "class") /\
  (p1 ← parseFileDeclarations inPkg dogDecl;
   p2 ← parseFileDeclarations p1
          (ast.GenDecl [ast.TypeSpec "Dog" (ast.InterfaceType [])]);
   Ok (Type_ <$> deref p2 ("pkg", "Dog"))) = Ok (Some "interface").
Proof. repeat split; vm_compute; reflexivity. Qed.

(** C2, amended.  An entry whose kind is assigned keeps an assigned kind
    through every declaration.  Only the first specification of a declaration
    is read ([decl.Specs[0]]): when it declares the type as a struct or as an
    interface, the kind is set to the declared one, whatever it was; any
    other declaration, a method with a receiver or a group in which the type
    is declared by a later specification among them, leaves the kind as it
    is. *)
Theorem kind_after_declaration (p p' : ClassParser) (node : ast.Decl)
    (ptr : StructPtr) (st : Struct) :
  parseFileDeclarations p node = Ok p' ->
  deref p ptr = Some st ->
  Type_ st <> "" ->
  exists st',
    deref p' ptr = Some st' /\
    Type_ st' <> "" /\
    Type_ st' = default (Type_ st) (declaredKind (currentPackageName p) node ptr).
Proof.
  intros Hrun Hst Hkind.
  apply parseFileDeclarations_Effect in Hrun as [_ Hderef].
  specialize (Hderef ptr). rewrite Hst in Hderef. simpl in Hderef.
  destruct node as [specs|recv fname ty|]; simpl in Hderef |- *;
    try (exists st; now repeat split).
  - destruct specs as [|[typeName [fields|methods|]|] specs];
      try (exists st; now repeat split);
      (destruct (decide (ptr = (currentPackageName p, typeName)));
       [| exists st; now repeat split]);
      (eexists; split; [exact Hderef |]; simpl; split;
       [discriminate | reflexivity]).
  - destruct recv as [[|r recv]|]; try (exists st; now repeat split).
    destruct (ast.Text (ast.Type_ r)) as [|c rest];
      [exists st; now repeat split |].
    destruct (decide (ptr = _)); [| exists st; now repeat split].
    eexists. split; [exact Hderef |].
    rewrite Type_AddMethod.
    destruct (String.eqb_spec (Type_ st) ""); [contradiction |].
    now split.
Qed.

(** A method keeps the kind of [Dog]; a declaration of [Dog] as an interface
    sets it. *)
Lemma kind_after_declaration_witness :
  (exists p' st',
     parseFileDeclarations dogModel dogSpeak = Ok p' /\
     deref p' ("pkg", "Dog") = Some st' /\ Type_ st' = "class") /\
  (exists p' st',
     parseFileDeclarations dogModel
       (ast.GenDecl [ast.TypeSpec "Dog" (ast.InterfaceType [])]) = Ok p' /\
     deref p' ("pkg", "Dog") = Some st' /\ Type_ st' = "interface").
Proof.
  split.
  - destruct (parseFileDeclarations dogModel dogSpeak) as [p'|] eqn:Hrun;
      [| vm_compute in Hrun; discriminate].
    destruct (kind_after_declaration dogModel p' dogSpeak ("pkg", "Dog") dogStruct
                Hrun eq_refl) as (st' & Hst' & _ & Hkind);
      [discriminate |].
    exists p', st'. repeat split; [exact Hst' | exact Hkind].
  - destruct (parseFileDeclarations dogModel
                (ast.GenDecl [ast.TypeSpec "Dog" (ast.InterfaceType [])]))
      as [p'|] eqn:Hrun; [| vm_compute in Hrun; discriminate].
    destruct (kind_after_declaration dogModel p' _ ("pkg", "Dog") dogStruct
                Hrun eq_refl) as (st' & Hst' & _ & Hkind);
      [discriminate |].
    exists p', st'. repeat split; [exact Hst' | exact Hkind].
Defined.

(** A later specification of a group is not read: [Dog], an interface, stays
    an interface through [type ( A struct{}; Dog struct{ name string } )],
    which declares only [A]. *)
Lemma later_specification_ignored :
  (p1 ← parseFileDeclarations inPkg
          (ast.GenDecl [ast.TypeSpec "Dog" (ast.InterfaceType [])]);
   p2 ← parseFileDeclarations p1
          (ast.GenDecl
             [ast.TypeSpec "A" (ast.StructType []);
              ast.TypeSpec "Dog"
                (ast.StructType [ast.mkField ["name"] (typeText "string")])]);
   Ok (Type_ <$> deref p2 ("pkg", "Dog"), Type_ <$> deref p2 ("pkg", "A"),
       elements (allStructs p2), elements (allInterfaces p2))) =
  Ok (Some "interface", Some "class", ["pkg.A"], ["pkg.Dog"]).
Proof. vm_compute. reflexivity. Qed.

(** C9.  When the parser gives an error, [NewClassDiagram] returns a nil
    model and that same error; when the parser gives no error,
    [NewClassDiagram] returns no error: it returns a model and a nil error,
    unless a declaration makes the builder panic. *)
Theorem NewClassDiagram_error
    (ParseDir : string -> list ast.Package * option error) (directoryPath : string) :
  match (ParseDir directoryPath).2 with
  | Some e => NewClassDiagram ParseDir directoryPath = Ok (None, Some e)
  | None =>
      NewClassDiagram ParseDir directoryPath = Panic \/
      exists p, NewClassDiagram ParseDir directoryPath = Ok (Some p, None)
  end.
Proof.
  unfold NewClassDiagram.
  destruct (ParseDir directoryPath) as [packages [e|]]; simpl; [reflexivity |].
  destruct (forEach parsePackage packages (mkClassParser ∅ "" ∅ ∅)) as [p1|];
    simpl; [| now left].
  destruct (forEach (resolveStruct (elements (allInterfaces p1)))
              (elements (allStructs p1)) p1) as [p2|]; simpl; [| now left].
  right. now exists p2.
Qed.

(** The two outcomes on sample inputs: a parser error, and a model. *)
Lemma NewClassDiagram_outcomes :
  NewClassDiagram failingParser "." = Ok (None, Some "expected declaration") /\
  (r ← NewClassDiagram (onePackage [speakerDecl; dogDecl; dogSpeak]) ".";
   Ok (match r with (Some _, None) => true | _ => false end)) = Ok true.
Proof. split; vm_compute; reflexivity. Qed.

(** An empty declaration group, such as [type ()], makes the builder panic
    at [decl.Specs[0]]. *)
Lemma NewClassDiagram_panics_on_empty_group :
  NewClassDiagram (onePackage [ast.GenDecl []]) "." = Panic.
Proof. vm_compute. reflexivity. Qed.

(** C1 (the code departs from it).  [Celsius] gets its kind ["class"] from a
    method receiver only; it has the one method of the interface [Speaker]
    with the same name, parameters and return types, yet after
    [NewClassDiagram] its [Extends] is empty: the receiver case never adds
    the type to [allStructs], the set the resolution loop ranges over.  The
    struct [Dog], declared with [type Dog struct], does get the edge. *)
Theorem receiver_only_record_not_resolved :
  match NewClassDiagram (onePackage [speakerDecl; celsiusDecl; celsiusSpeak]) "." with
  | Ok (Some p, None) =>
      match deref p ("pkg", "Celsius"), deref p ("pkg", "Speaker") with
      | Some r, Some i =>
          Type_ r = "class" /\ Type_ i = "interface" /\
          Functions r = [speakMethod] /\ Functions i = [speakMethod] /\
          ImplementsInterface r (Some i) = Ok true /\
          Extends r = [] /\
          elements (allStructs p) = [] /\
          elements (allInterfaces p) = ["pkg.Speaker"]
      | _, _ => False
      end
  | _ => False
  end /\
  match NewClassDiagram (onePackage [speakerDecl; dogDecl; dogSpeak]) "." with
  | Ok (Some p, None) =>
      match deref p ("pkg", "Dog") with
      | Some r => Type_ r = "class" /\ Extends r = ["pkg.Speaker"]
      | None => False
      end
  | _ => False
  end.
Proof. split; vm_compute; repeat split; reflexivity. Qed.

(** ** The resolution pass on declared structs

    The counterpart of the theorem above: a record that a struct declaration
    added to [allStructs] does get the edge to every registered interface
    whose methods it has. *)

Lemma forEach_related {A S : Type} (body : S -> A -> result S)
    (Rel : S -> S -> Prop) (xs : list A) :
  (forall s, Rel s s) ->
  (forall a b c, Rel a b -> Rel b c -> Rel a c) ->
  (forall s x s', body s x = Ok s' -> Rel s s') ->
  forall s s', forEach body xs s = Ok s' -> Rel s s'.
Proof.
  intros Hrefl Htrans Hstep.
  induction xs as [|x xs IH]; intros s s' Hrun.
  - injection Hrun as <-. apply Hrefl.
  - rewrite forEach_cons in Hrun. apply bind_Ok in Hrun as (s1 & H1 & Hrest).
    eapply Htrans; [exact (Hstep _ _ _ H1) | exact (IH _ _ Hrest)].
Qed.

Lemma SplitN_2_cons (c sep : ascii) (rest : string) :
  SplitN_2 (String c rest) sep =
  if Ascii.eqb c sep then [""; rest]
  else match SplitN_2 rest sep with
       | x :: more => String c x :: more
       | [] => []
       end.
Proof. reflexivity. Qed.

Lemma hasSeparator_cons (c : ascii) (rest : string) :
  hasSeparator (String c rest) = Ascii.eqb "." c || hasSeparator rest.
Proof. reflexivity. Qed.

Lemma SplitN_2_qualified (pk nm : string) :
  hasSeparator pk = false -> SplitN_2 (pk +:+ "." +:+ nm) "." = [pk; nm].
Proof.
  induction pk as [|c pk IH]; intros Hpk.
  - reflexivity.
  - rewrite hasSeparator_cons in Hpk. apply orb_false_iff in Hpk as [Hc Hpk].
    rewrite append_cons, SplitN_2_cons, Ascii.eqb_sym, Hc.
    now rewrite (IH Hpk).
Qed.

Lemma getStruct_qualified (p : ClassParser) (pk nm : string) :
  hasSeparator pk = false ->
  getStruct p (pk +:+ "." +:+ nm) =
  Ok (match deref p (pk, nm) with Some _ => Some (pk, nm) | None => None end).
Proof.
  intros Hpk. unfold getStruct, deref. rewrite (SplitN_2_qualified pk nm Hpk).
  simpl. now destruct (structure p !! pk).
Qed.

Lemma Resolved_refl (q : ClassParser) : Resolved q q.
Proof.
  split; [reflexivity |]. split; [reflexivity |].
  intros ptr. destruct (deref q ptr) as [st|]; eauto.
Qed.

Lemma Resolved_trans (a b c : ClassParser) :
  Resolved a b -> Resolved b c -> Resolved a c.
Proof.
  intros (HS1 & HI1 & H1) (HS2 & HI2 & H2).
  split; [congruence |]. split; [congruence |].
  intros ptr. specialize (H1 ptr). specialize (H2 ptr).
  destruct (deref a ptr) as [st|].
  - destruct H1 as (st1 & Hst1 & Hf1 & He1). rewrite Hst1 in H2.
    destruct H2 as (st2 & Hst2 & Hf2 & He2).
    exists st2. split; [exact Hst2 |]. split; [congruence | auto].
  - now rewrite H1 in H2.
Qed.

Lemma AddToExtends_Resolved (st : StructPtr) (i : string) (q q' : ClassParser) :
  update st (AddToExtends i) q = Ok q' -> Resolved q q'.
Proof.
  intros H. apply update_Ok in H as (r & Hr & ->).
  split; [reflexivity |]. split; [reflexivity |].
  intros ptr. rewrite deref_store.
  destruct (decide (ptr = st)) as [->|].
  - rewrite Hr. eexists. split; [reflexivity |]. split; [reflexivity |].
    intros x Hx. simpl. apply in_or_app. now left.
  - destruct (deref q ptr) as [st0|]; eauto.
Qed.

Lemma resolveInterface_Resolved (st : StructPtr) (q q' : ClassParser) (i : string) :
  resolveInterface st q i = Ok q' -> Resolved q q'.
Proof.
  unfold resolveInterface. intros H.
  apply bind_Ok in H as (inter & _ & H).
  destruct (deref q st) as [r|]; [| discriminate].
  apply bind_Ok in H as ([|] & _ & H).
  - exact (AddToExtends_Resolved _ _ _ _ H).
  - injection H as <-. apply Resolved_refl.
Qed.

Lemma resolveInterfaces_Resolved (st : StructPtr) (interfaces : list string)
    (q q' : ClassParser) :
  forEach (resolveInterface st) interfaces q = Ok q' -> Resolved q q'.
Proof.
  apply (forEach_related _ Resolved);
    [exact Resolved_refl | exact Resolved_trans |].
  intros a x b. apply resolveInterface_Resolved.
Qed.

Lemma resolveStruct_Resolved (interfaces : list string) (q q' : ClassParser)
    (s : string) :
  resolveStruct interfaces q s = Ok q' -> Resolved q q'.
Proof.
  unfold resolveStruct. intros H. apply bind_Ok in H as ([st|] & _ & H).
  - exact (resolveInterfaces_Resolved _ _ _ _ H).
  - injection H as <-. apply Resolved_refl.
Qed.

Lemma resolveStructs_Resolved (interfaces structs : list string) (q q' : ClassParser) :
  forEach (resolveStruct interfaces) structs q = Ok q' -> Resolved q q'.
Proof.
  apply (forEach_related _ Resolved);
    [exact Resolved_refl | exact Resolved_trans |].
  intros a x b. apply resolveStruct_Resolved.
Qed.

Lemma Resolved_deref (q q' : ClassParser) (ptr : StructPtr) (st : Struct) :
  Resolved q q' -> deref q ptr = Some st ->
  exists st', deref q' ptr = Some st' /\ Functions st' = Functions st /\
              forall x, In x (Extends st) -> In x (Extends st').
Proof. intros (_ & _ & H) Hst. specialize (H ptr). now rewrite Hst in H. Qed.

Section Resolution.

Variables (pkR nmR pkI nmI : string).
Hypothesis pkR_plain : hasSeparator pkR = false.
Hypothesis pkI_plain : hasSeparator pkI = false.

Let s : string := pkR +:+ "." +:+ nmR.
Let i : string := pkI +:+ "." +:+ nmI.

(** The iteration of the inner loop for the interface [i]. *)
Lemma resolveInterface_adds (q q' : ClassParser) (R I : Struct) :
  deref q (pkR, nmR) = Some R -> deref q (pkI, nmI) = Some I ->
  implements R I = true ->
  resolveInterface (pkR, nmR) q i = Ok q' ->
  exists R', deref q' (pkR, nmR) = Some R' /\ Functions R' = Functions R /\
             In i (Extends R').
Proof.
  intros HR HI Himpl. unfold resolveInterface, i.
  rewrite (getStruct_qualified q pkI nmI pkI_plain), HI, HR. simpl.
  rewrite HI. simpl. fold (implements R I). rewrite Himpl. intros Hupd.
  apply update_Ok in Hupd as (r & Hr & ->).
  rewrite HR in Hr. injection Hr as <-.
  rewrite deref_store, decide_True by reflexivity.
  eexists. split; [reflexivity |]. split; [reflexivity |].
  simpl. apply in_or_app. right. now left.
Qed.

Lemma resolveInterfaces_adds (interfaces : list string) (q q' : ClassParser)
    (R I : Struct) :
  In i interfaces ->
  deref q (pkR, nmR) = Some R -> deref q (pkI, nmI) = Some I ->
  implements R I = true ->
  forEach (resolveInterface (pkR, nmR)) interfaces q = Ok q' ->
  exists R', deref q' (pkR, nmR) = Some R' /\ Functions R' = Functions R /\
             In i (Extends R').
Proof.
  intros Hin HR HI Himpl Hrun.
  apply in_split in Hin as (before & after & ->).
  rewrite forEach_app in Hrun. apply bind_Ok in Hrun as (q1 & Hbefore & Hrun).
  rewrite forEach_cons in Hrun. apply bind_Ok in Hrun as (q2 & Hstep & Hafter).
  apply resolveInterfaces_Resolved in Hbefore, Hafter.
  destruct (Resolved_deref _ _ _ _ Hbefore HR) as (R1 & HR1 & HfR1 & _).
  destruct (Resolved_deref _ _ _ _ Hbefore HI) as (I1 & HI1 & HfI1 & _).
  assert (Himpl1 : implements R1 I1 = true).
  { unfold implements in *. now rewrite HfR1, HfI1. }
  destruct (resolveInterface_adds q1 q2 R1 I1 HR1 HI1 Himpl1 Hstep)
    as (R2 & HR2 & HfR2 & Hin2).
  destruct (Resolved_deref _ _ _ _ Hafter HR2) as (R' & HR' & HfR' & Hext).
  exists R'. split; [exact HR' |]. split; [congruence | auto].
Qed.

Lemma resolveStructs_adds (interfaces structs : list string) (q q' : ClassParser)
    (R I : Struct) :
  In s structs -> In i interfaces ->
  deref q (pkR, nmR) = Some R -> deref q (pkI, nmI) = Some I ->
  implements R I = true ->
  forEach (resolveStruct interfaces) structs q = Ok q' ->
  exists R', deref q' (pkR, nmR) = Some R' /\ Functions R' = Functions R /\
             In i (Extends R').
Proof.
  intros Hs Hi HR HI Himpl Hrun.
  apply in_split in Hs as (before & after & ->).
  rewrite forEach_app in Hrun. apply bind_Ok in Hrun as (q1 & Hbefore & Hrun).
  rewrite forEach_cons in Hrun. apply bind_Ok in Hrun as (q2 & Hstep & Hafter).
  apply resolveStructs_Resolved in Hbefore, Hafter.
  destruct (Resolved_deref _ _ _ _ Hbefore HR) as (R1 & HR1 & HfR1 & _).
  destruct (Resolved_deref _ _ _ _ Hbefore HI) as (I1 & HI1 & HfI1 & _).
  assert (Himpl1 : implements R1 I1 = true).
  { unfold implements in *. now rewrite HfR1, HfI1. }
  unfold resolveStruct, s in Hstep.
  rewrite (getStruct_qualified q1 pkR nmR pkR_plain), HR1 in Hstep.
  simpl in Hstep.
  destruct (resolveInterfaces_adds interfaces q1 q2 R1 I1 Hi HR1 HI1 Himpl1 Hstep)
    as (R2 & HR2 & HfR2 & Hin2).
  destruct (Resolved_deref _ _ _ _ Hafter HR2) as (R' & HR' & HfR' & Hext).
  exists R'. split; [exact HR' |]. split; [congruence | auto].
Qed.

End Resolution.

(** *** What the declarations register *)

Lemma Effect_is_Some (p p' : ClassParser)
    (eff : option (string * (Struct -> Struct))) (ptr : StructPtr) :
  Effect p p' eff -> is_Some (deref p ptr) -> is_Some (deref p' ptr).
Proof.
  intros [_ H] Hptr. rewrite H. destruct eff as [[name f]|]; [| exact Hptr].
  destruct (decide (ptr = (currentPackageName p, name))); [eauto | exact Hptr].
Qed.

Lemma declareType_registers (p p' : ClassParser) (typeName declarationType : string) :
  declareType p typeName declarationType = Ok p' ->
  forall s, s ∈ allStructs p' \/ s ∈ allInterfaces p' ->
    (s ∈ allStructs p \/ s ∈ allInterfaces p) \/
    s = currentPackageName p +:+ "." +:+ typeName.
Proof.
  unfold declareType. intros H.
  apply bind_Ok in H as ([p0 ptr] & Hget & H).
  apply bind_Ok in H as (p1 & Hupd & H).
  assert (Htouch :
    ('(p1, ptr) ← getOrCreateStruct p typeName;
     update ptr (setType declarationType) p1) = Ok p1).
  { rewrite Hget. exact Hupd. }
  apply getOrCreate_update in Htouch as ([Hcur _] & HI & HS).
  cbv zeta in H. rewrite Hcur in H.
  destruct (String.eqb declarationType "interface");
    [| destruct (String.eqb declarationType "class")];
    injection H as <-; simpl; rewrite ?HI, ?HS; intros s [Hs|Hs];
    rewrite ?elem_of_union, ?elem_of_singleton in Hs; tauto.
Qed.

Lemma parseFileDeclarations_registers (p p' : ClassParser) (node : ast.Decl) :
  parseFileDeclarations p node = Ok p' ->
  forall s, s ∈ allStructs p' \/ s ∈ allInterfaces p' ->
    (s ∈ allStructs p \/ s ∈ allInterfaces p) \/
    exists nm, s = currentPackageName p +:+ "." +:+ nm /\
               is_Some (deref p' (currentPackageName p, nm)).
Proof.
  intros Hrun.
  assert (Hdeclared :
    forall (A : Type) (g : A -> Struct -> Struct) (xs : list A) typeName kind,
      (p1 ← forEach
               (fun p x => '(p1, ptr) ← getOrCreateStruct p typeName;
                           update ptr (g x) p1) xs p;
       declareType p1 typeName kind) = Ok p' ->
      forall s, s ∈ allStructs p' \/ s ∈ allInterfaces p' ->
        (s ∈ allStructs p \/ s ∈ allInterfaces p) \/
        exists nm, s = currentPackageName p +:+ "." +:+ nm /\
                   is_Some (deref p' (currentPackageName p, nm))).
  { intros A g xs typeName kind H s Hs.
    apply bind_Ok in H as (p1 & Hloop & Hdecl).
    apply touch_loop in Hloop as (HI & HS & Hloop).
    assert (Hcur : currentPackageName p1 = currentPackageName p).
    { destruct xs; [now subst p1 | exact (proj1 Hloop)]. }
    destruct (declareType_registers _ _ _ _ Hdecl s Hs) as [Hold | ->].
    - left. now rewrite <- HI, <- HS.
    - right. exists typeName. rewrite Hcur. split; [reflexivity |].
      apply declareType_Effect in Hdecl as [_ Hderef].
      rewrite Hderef, Hcur, decide_True by reflexivity. eauto. }
  destruct node as [specs|recv fname ty|]; simpl in Hrun.
  - destruct specs as [|[typeName [fields|methods|]|] specs]; try discriminate.
    + exact (Hdeclared _ _ _ _ _ Hrun).
    + exact (Hdeclared _ _ _ _ _ Hrun).
    + injection Hrun as <-. now left.
    + injection Hrun as <-. now left.
  - destruct recv as [[|r recv]|]; try discriminate.
    + destruct (ast.Text (ast.Type_ r)) as [|c rest]; [discriminate |].
      apply bind_Ok in Hrun as ([p0 ptr] & Hget & Hrun).
      apply bind_Ok in Hrun as (p1 & Hupd & Hrun).
      match type of Hupd with
      | update _ ?f _ = _ =>
          assert (Htouch :
            ('(p1, ptr) ← getOrCreateStruct p
                            (if Ascii.eqb c "*" then rest else String c rest);
             update ptr f p1) = Ok p1) by (rewrite Hget; exact Hupd)
      end.
      apply getOrCreate_update in Htouch as (_ & HI & HS).
      apply update_Ok in Hrun as (st & _ & ->).
      intros s Hs. left. simpl in Hs. now rewrite <- HI, <- HS.
    + injection Hrun as <-. now left.
  - injection Hrun as <-. now left.
Qed.

Lemma parseFileDeclarations_Registered (p p' : ClassParser) (node : ast.Decl) :
  Registered p /\ hasSeparator (currentPackageName p) = false ->
  parseFileDeclarations p node = Ok p' ->
  Registered p' /\ hasSeparator (currentPackageName p') = false.
Proof.
  intros [Hreg Hcur] Hrun.
  pose proof (parseFileDeclarations_Effect _ _ _ Hrun) as Heff.
  split; [| now rewrite (proj1 Heff)].
  intros s Hs.
  destruct (parseFileDeclarations_registers _ _ _ Hrun s Hs)
    as [Hold | (nm & -> & Hnew)].
  - destruct (Hreg s Hold) as (pk & nm & -> & Hpk & Hsome).
    exists pk, nm. split; [reflexivity |]. split; [exact Hpk |].
    exact (Effect_is_Some _ _ _ _ Heff Hsome).
  - exists (currentPackageName p), nm. now repeat split.
Qed.

Lemma parsePackage_Registered (p p' : ClassParser) (pack : ast.Package) :
  hasSeparator (ast.Name pack) = false ->
  Registered p -> parsePackage p pack = Ok p' -> Registered p'.
Proof.
  intros Hname Hreg Hrun. unfold parsePackage in Hrun.
  set (J := fun q => Registered q /\ hasSeparator (currentPackageName q) = false).
  assert (Hfiles : forall files q q',
    J q ->
    forEach
      (fun p (entry : string * ast.File) =>
         if negb (HasSuffix entry.1 "_test.go")
         then forEach parseFileDeclarations (ast.Decls entry.2) p
         else Ok p) files q = Ok q' -> J q').
  { intros files. apply (forEach_invariant _ J).
    intros q [fileName file] q' _ Hq. simpl.
    destruct (HasSuffix fileName "_test.go"); simpl.
    - now intros [= <-].
    - revert Hq. apply (forEach_invariant _ J).
      intros a node b _ Ha Hstep.
      exact (parseFileDeclarations_Registered _ _ _ Ha Hstep). }
  apply Hfiles in Hrun; [exact (proj1 Hrun) |].
  split.
  - intros s Hs.
    assert (Hs' : s ∈ allStructs p \/ s ∈ allInterfaces p).
    { simpl in Hs. now destruct (structure p !! ast.Name pack). }
    destruct (Hreg s Hs') as (pk & nm & -> & Hpk & Hsome).
    exists pk, nm. split; [reflexivity |]. split; [exact Hpk |].
    now rewrite (deref_enter_package p (ast.Name pack) (pk, nm)).
  - simpl. now destruct (structure p !! ast.Name pack).
Qed.

(** A record registered in [allStructs] whose methods cover those of an
    interface registered in [allInterfaces] has that interface's qualified
    name in its [Extends] after [NewClassDiagram]. *)
Lemma declared_struct_resolved
    (ParseDir : string -> list ast.Package * option error) (directoryPath : string)
    (p : ClassParser) (pkR nmR pkI nmI : string) (R I : Struct) :
  forallb (fun pack => negb (hasSeparator (ast.Name pack)))
    (ParseDir directoryPath).1 = true ->
  NewClassDiagram ParseDir directoryPath = Ok (Some p, None) ->
  hasSeparator pkR = false -> hasSeparator pkI = false ->
  pkR +:+ "." +:+ nmR ∈ allStructs p ->
  pkI +:+ "." +:+ nmI ∈ allInterfaces p ->
  deref p (pkR, nmR) = Some R -> deref p (pkI, nmI) = Some I ->
  implements R I = true ->
  In (pkI +:+ "." +:+ nmI) (Extends R).
Proof.
  unfold NewClassDiagram.
  destruct (ParseDir directoryPath) as [packages [e|]]; [discriminate |].
  simpl fst. intros Hnames Hrun HpkR HpkI HsR HsI HR HI Himpl.
  rewrite forallb_forall in Hnames.
  apply bind_Ok in Hrun as (p1 & Hparse & Hrun).
  apply bind_Ok in Hrun as (p2 & Hresolve & [= <-]).
  assert (Hreg : Registered p1).
  { revert Hparse. apply (forEach_invariant _ Registered).
    - intros q pack q' Hin Hq Hstep.
      eapply parsePackage_Registered; [| exact Hq | exact Hstep].
      apply negb_true_iff. exact (Hnames _ Hin).
    - intros s [Hs|Hs]; simpl in Hs; set_solver. }
  pose proof (resolveStructs_Resolved _ _ _ _ Hresolve) as Hres.
  destruct Hres as (HS & HI' & Hres).
  rewrite HS in HsR. rewrite HI' in HsI.
  assert (Hback : forall pk nm st s,
    hasSeparator pk = false -> s = pk +:+ "." +:+ nm ->
    s ∈ allStructs p1 \/ s ∈ allInterfaces p1 ->
    deref p2 (pk, nm) = Some st ->
    exists st1, deref p1 (pk, nm) = Some st1 /\ Functions st1 = Functions st).
  { intros pk nm st s Hpk -> Hs Hst.
    destruct (Hreg _ Hs) as (pk' & nm' & Heq & Hpk' & [st1 Hst1]).
    assert (Hsplit : [pk; nm] = [pk'; nm']).
    { rewrite <- (SplitN_2_qualified pk nm Hpk),
        <- (SplitN_2_qualified pk' nm' Hpk'). now rewrite Heq. }
    injection Hsplit as <- <-.
    specialize (Hres (pk, nm)). rewrite Hst1 in Hres.
    destruct Hres as (st' & Hst' & Hf & _).
    exists st1. split; [exact Hst1 |]. congruence. }
  destruct (Hback pkR nmR R _ HpkR eq_refl (or_introl HsR) HR) as (R1 & HR1 & HfR).
  destruct (Hback pkI nmI I _ HpkI eq_refl (or_intror HsI) HI) as (I1 & HI1 & HfI).
  assert (Himpl1 : implements R1 I1 = true).
  { unfold implements in *. now rewrite HfR, HfI. }
  destruct (resolveStructs_adds pkR nmR pkI nmI HpkR HpkI
              (elements (allInterfaces p1)) (elements (allStructs p1)) p1 p2 R1 I1)
    as (R' & HR' & _ & Hin); try assumption.
  - now apply list_elem_of_In, elem_of_elements.
  - now apply list_elem_of_In, elem_of_elements.
  - rewrite HR in HR'. now injection HR' as <-.
Qed.

(** * Further properties of the code *)

(** ** [WriteLineWithDepth] *)

Lemma length_Repeat (s : string) (count : nat) :
  String.length (Repeat s count) = count * String.length s.
Proof.
  induction count as [|n IH]; [reflexivity |].
  simpl Repeat. rewrite length_append, IH. simpl. lia.
Qed.

Lemma Repeat_tab (depth : nat) : Repeat tab depth = Repeat " " (4 * depth).
Proof.
  induction depth as [|n IH]; [reflexivity |].
  replace (4 * S n) with (S (S (S (S (4 * n))))) by lia.
  simpl Repeat. rewrite IH. reflexivity.
Qed.

(** A call of [WriteLineWithDepth] gives the builder's old content followed
    by four spaces per level of depth, the text and one line break, and
    nothing else.  So the new content starts with the old one, ends with the
    text and the line break, and is longer by [4 * depth + len(str) + 1]
    bytes. *)
Theorem WriteLineWithDepth_appends (lsb : LineStringBuilder) (depth : nat)
    (str : string) :
  WriteLineWithDepth lsb depth str =
    lsb +:+ Repeat " " (4 * depth) +:+ str +:+ nl /\
  Repeat tab depth = Repeat " " (4 * depth) /\
  String.prefix lsb (WriteLineWithDepth lsb depth str) = true /\
  HasSuffix (WriteLineWithDepth lsb depth str) (str +:+ nl) = true /\
  String.length (WriteLineWithDepth lsb depth str) =
    String.length lsb + 4 * depth + String.length str + 1.
Proof.
  split; [| split; [apply Repeat_tab |]].
  - unfold WriteLineWithDepth, WriteString.
    now rewrite Repeat_tab, !append_assoc.
  - unfold WriteLineWithDepth, WriteString. split; [| split].
    + rewrite !append_assoc. apply prefix_append.
    + rewrite append_assoc. apply HasSuffix_append.
    + rewrite !length_append, length_Repeat. simpl. lia.
Qed.

(** ** The renderer on a type and on a whole model *)

Lemma accessModifier_markerOf (name : string) :
  nonEmpty name = true -> accessModifier name = Ok (markerOf name).
Proof. destruct name as [|c rest]; [discriminate | reflexivity]. Qed.

Lemma markerOf_private (name : string) :
  String.eqb (markerOf name) "-" = isPrivate name.
Proof. unfold markerOf. now destruct (isPrivate name). Qed.

Lemma renderField_closed (priv pub : string) (field : Field) :
  nonEmpty (Field_Name field) = true ->
  renderField (priv, pub) field =
  Ok (if privateField field then (priv +:+ fieldLine field, pub)
      else (priv, pub +:+ fieldLine field)).
Proof.
  intros Hname. unfold renderField, privateField, fieldLine.
  rewrite (accessModifier_markerOf _ Hname). simpl mbind.
  rewrite markerOf_private.
  destruct (isPrivate (Field_Name field)); rewrite WriteLineWithDepth_2;
    now flatten_appends.
Qed.

Lemma renderMethod_closed (priv pub : string) (method : Function) :
  nonEmpty (Function_Name method) = true ->
  renderMethod (priv, pub) method =
  Ok (if privateMethod method then (priv +:+ methodLine method, pub)
      else (priv, pub +:+ methodLine method)).
Proof.
  intros Hname. unfold renderMethod, privateMethod, methodLine.
  rewrite (accessModifier_markerOf _ Hname). simpl mbind.
  rewrite markerOf_private.
  destruct (isPrivate (Function_Name method)); rewrite WriteLineWithDepth_2;
    now flatten_appends.
Qed.

(** A loop that sends each element's line to one of two builders splits the
    lines in two, each part in the order of the list. *)
Lemma split_loop {A : Type} (body : string * string -> A -> result (string * string))
    (line : A -> string) (private : A -> bool) (named : A -> bool) (xs : list A) :
  (forall priv pub x, named x = true ->
     body (priv, pub) x =
     Ok (if private x then (priv +:+ line x, pub) else (priv, pub +:+ line x))) ->
  forallb named xs = true ->
  forall priv pub,
    forEach body xs (priv, pub) =
    Ok (priv +:+ concatAll (map line (List.filter private xs)),
        pub +:+ concatAll (map line (List.filter (fun x => negb (private x)) xs))).
Proof.
  intros Hbody. induction xs as [|x xs IH]; intros Hnamed priv pub.
  - simpl. now rewrite !append_nil_r.
  - simpl in Hnamed. apply andb_true_iff in Hnamed as [Hx Hxs].
    rewrite forEach_cons, (Hbody _ _ _ Hx). simpl List.filter.
    destruct (private x); simpl mbind; rewrite (IH Hxs); simpl negb; cbv iota;
      simpl map; simpl concatAll; now flatten_appends.
Qed.

Lemma memberGroup_groupOf {A : Type} (line : A -> string) (xs : list A) :
  (forall x, 0 < String.length (line x)) ->
  memberGroup (concatAll (map line xs)) = groupOf (map line xs).
Proof.
  intros Hline. unfold memberGroup. destruct xs as [|x xs]; [reflexivity |].
  unfold groupOf. simpl map.
  change (concatAll (line x :: map line xs))
    with (line x +:+ concatAll (map line xs)).
  rewrite length_append.
  assert (H : (0 <? String.length (line x) +
                    String.length (concatAll (map line xs)))%nat = true).
  { apply Nat.ltb_lt. specialize (Hline x). lia. }
  now rewrite H.
Qed.

Lemma fieldLine_not_empty (f : Field) : 0 < String.length (fieldLine f).
Proof. unfold fieldLine. rewrite !length_append. simpl. lia. Qed.

Lemma methodLine_not_empty (m : Function) : 0 < String.length (methodLine m).
Proof. unfold methodLine. rewrite !length_append. simpl. lia. Qed.

(** The declaration of a type whose members are named: the header line, then
    the private fields, the public fields, the private methods and the public
    methods, each group in the order the members have in the model, each
    group followed by an empty line and left out altogether when it has no
    member, then the closing line.  The edge builders get the type's edges. *)
Theorem type_declaration_layout (pack name : string) (st : Struct)
    (str composition extends : LineStringBuilder) :
  namedMembers st = true ->
  renderStructure pack (str, composition, extends) (name, st) =
  Ok (str +:+ tab +:+ Type_ st +:+ " " +:+ name +:+ " {" +:+ nl +:+
      groupOf (map fieldLine (List.filter privateField (Fields st))) +:+
      groupOf (map fieldLine (List.filter publicField (Fields st))) +:+
      groupOf (map methodLine (List.filter privateMethod (Functions st))) +:+
      groupOf (map methodLine (List.filter publicMethod (Functions st))) +:+
      tab +:+ "}" +:+ nl,
      composition +:+ compositionEdges pack (name, st),
      extends +:+ extendsEdges pack (name, st)).
Proof.
  intros Hnamed. apply andb_true_iff in Hnamed as [Hf Hm].
  rewrite renderStructure_closed. unfold typeDeclaration. simpl fst; simpl snd.
  rewrite (split_loop renderField fieldLine privateField
             (fun f => nonEmpty (Field_Name f)) (Fields st)
             (fun priv pub x => renderField_closed priv pub x) Hf).
  simpl mbind.
  rewrite (split_loop renderMethod methodLine privateMethod
             (fun m => nonEmpty (Function_Name m)) (Functions st)
             (fun priv pub x => renderMethod_closed priv pub x) Hm).
  simpl mbind. rewrite !append_nil_l.
  rewrite !(memberGroup_groupOf fieldLine) by exact fieldLine_not_empty.
  rewrite !(memberGroup_groupOf methodLine) by exact methodLine_not_empty.
  unfold publicField, publicMethod. now flatten_appends.
Qed.

(** The declaration of [Dog]: one private field, one public method. *)
Lemma type_declaration_layout_witness :
  renderStructure "pkg" ("", "", "") ("Dog", dogStruct) =
  Ok (tab +:+ "class Dog {" +:+ nl +:+
      tab +:+ tab +:+ "- name string" +:+ nl +:+ nl +:+
      tab +:+ tab +:+ "+ Speak() " +:+ nl +:+ nl +:+
      tab +:+ "}" +:+ nl,
      "pkg.Animal *-- pkg.Dog" +:+ nl,
      "pkg.Speaker <|-- pkg.Dog" +:+ nl).
Proof.
  etransitivity.
  - apply (type_declaration_layout "pkg" "Dog" dogStruct "" "" "").
    vm_compute. reflexivity.
  - vm_compute. reflexivity.
Defined.

Lemma forEach_Ok_forallb {A S : Type} (body : S -> A -> result S) (ok : A -> bool)
    (xs : list A) :
  (forall s x s', body s x = Ok s' -> ok x = true) ->
  forall s s', forEach body xs s = Ok s' -> forallb ok xs = true.
Proof.
  intros Hbody. induction xs as [|x xs IH]; intros s s' Hrun; [reflexivity |].
  rewrite forEach_cons in Hrun. apply bind_Ok in Hrun as (s1 & H1 & Hrest).
  simpl. now rewrite (Hbody _ _ _ H1), (IH _ _ Hrest).
Qed.

Lemma mapM_Ok_forallb {A B : Type} (f : A -> result B) (ok : A -> bool)
    (xs : list A) :
  (forall x y, f x = Ok y -> ok x = true) ->
  forall ys, mapM f xs = Ok ys -> forallb ok xs = true.
Proof.
  intros Hf. induction xs as [|x xs IH]; intros ys Hrun; [reflexivity |].
  rewrite mapM_cons in Hrun. apply bind_Ok in Hrun as (y & Hy & Hrun).
  apply bind_Ok in Hrun as (ys' & Hys & _).
  simpl. now rewrite (Hf _ _ Hy), (IH _ Hys).
Qed.

Lemma accessModifier_Ok (name am : string) :
  accessModifier name = Ok am -> nonEmpty name = true.
Proof. destruct name; [discriminate | reflexivity]. Qed.

Lemma typeDeclaration_Ok (entry : string * Struct) (block : string) :
  typeDeclaration entry = Ok block -> namedMembers entry.2 = true.
Proof.
  unfold typeDeclaration, namedMembers. intros H.
  apply bind_Ok in H as ([privF pubF] & Hf & H).
  apply bind_Ok in H as ([privM pubM] & Hm & _).
  apply andb_true_iff. split.
  - revert Hf. apply forEach_Ok_forallb.
    intros [priv pub] f acc Hstep. unfold renderField in Hstep.
    apply bind_Ok in Hstep as (am & Ham & _). exact (accessModifier_Ok _ _ Ham).
  - revert Hm. apply forEach_Ok_forallb.
    intros [priv pub] m acc Hstep. unfold renderMethod in Hstep.
    apply bind_Ok in Hstep as (am & Ham & _). exact (accessModifier_Ok _ _ Ham).
Qed.

Lemma renderPackage_Ok (str str' pack : string) (structures : list (string * Struct)) :
  renderPackage str (pack, structures) = Ok str' ->
  forallb (fun e : string * Struct => namedMembers e.2) structures = true.
Proof.
  destruct structures as [|e structures]; [reflexivity |].
  rewrite renderPackage_closed by congruence. intros H.
  apply bind_Ok in H as (blocks & Hblocks & _).
  revert Hblocks. apply mapM_Ok_forallb. intros x y. apply typeDeclaration_Ok.
Qed.

(** [Render] returns a text exactly for the models in which every field and
    every method has a name of at least one byte; for any other model the
    indexing of the empty name makes it panic. *)
Theorem Render_returns_iff (p : ClassParser) :
  (exists text, Render p = Ok text) <-> wellFormed p = true.
Proof.
  split; [| apply Render_wellFormed].
  intros [text Htext]. unfold Render, renderAll in Htext.
  apply bind_Ok in Htext as (str & Hrun & _).
  unfold wellFormed, allStructsb.
  rewrite <- (forallb_map
                (fun e : string * list (string * Struct) =>
                   forallb (fun e' : string * Struct => namedMembers e'.2) e.2)
                (fun e : string * gmap string Struct => (e.1, range e.2))).
  revert Hrun. apply forEach_Ok_forallb.
  intros s [pack structures] s'. apply renderPackage_Ok.
Qed.

(** Both directions on sample models: [dogModel] is rendered, and a model
    that is rendered has named members. *)
Lemma Render_returns_iff_witness :
  (exists text, Render dogModel = Ok text) /\ wellFormed emptyModel = true.
Proof.
  split.
  - apply (proj2 (Render_returns_iff dogModel)). vm_compute. reflexivity.
  - apply (proj1 (Render_returns_iff emptyModel)).
    exists ("@startuml" +:+ nl +:+ "@enduml"). vm_compute. reflexivity.
Defined.

Lemma renderPackage_frame (str : string) (entry : string * list (string * Struct)) :
  renderPackage str entry = text ← renderPackage "" entry; Ok (str +:+ text).
Proof.
  destruct entry as [pack structures]. destruct structures as [|e structures].
  - simpl. now rewrite append_nil_r.
  - rewrite !renderPackage_closed by congruence.
    destruct (mapM typeDeclaration (e :: structures)) as [blocks|]; reflexivity.
Qed.

Lemma renderPackages_frame (packages : list (string * list (string * Struct)))
    (str : string) :
  forEach renderPackage packages str =
  texts ← mapM (renderPackage "") packages; Ok (str +:+ concatAll texts).
Proof.
  revert str. induction packages as [|entry packages IH]; intros str.
  - simpl. now rewrite append_nil_r.
  - rewrite forEach_cons, mapM_cons, renderPackage_frame.
    destruct (renderPackage "" entry) as [text|]; [| reflexivity].
    simpl mbind. rewrite IH.
    destruct (mapM (renderPackage "") packages) as [texts|]; [| reflexivity].
    simpl. now flatten_appends.
Qed.

(** The text of a model is the opening marker line, the texts of its
    namespaces one after the other, and the closing marker.  The text of a
    namespace is what the loop body writes into an empty builder: it does not
    depend on the namespaces visited before, and the edge lines collected for
    one namespace are not carried over into the next. *)
Theorem document_of_namespaces (packages : list (string * list (string * Struct))) :
  renderAll packages =
  texts ← mapM (renderPackage "") packages;
  Ok ("@startuml" +:+ nl +:+ concatAll texts +:+ "@enduml").
Proof.
  unfold renderAll. rewrite renderPackages_frame.
  destruct (mapM (renderPackage "") packages) as [texts|]; [| reflexivity].
  simpl. rewrite WriteLineWithDepth_0. unfold WriteString. now flatten_appends.
Qed.

Lemma renderPackages_skip_empty (packages : list (string * list (string * Struct)))
    (str : string) :
  forEach renderPackage packages str =
  forEach renderPackage
    (List.filter
       (fun e : string * list (string * Struct) => (0 <? length e.2)%nat)
       packages) str.
Proof.
  revert str. induction packages as [|[pack structures] packages IH]; intros str;
    [reflexivity |].
  simpl List.filter. destruct structures as [|e structures].
  - simpl. apply IH.
  - change (0 <? length (e :: structures))%nat with true. cbv iota.
    rewrite !forEach_cons.
    destruct (renderPackage str (pack, e :: structures)) as [str'|];
      [apply IH | reflexivity].
Qed.

(** A namespace that holds no type leaves no trace in the text: the model
    renders as the model without its empty namespaces does.  In particular a
    model whose namespaces are all empty renders as the two markers alone. *)
Theorem empty_namespaces_not_rendered (p : ClassParser) :
  renderAll (map (fun e => (e.1, range e.2)) (range (structure p))) =
  renderAll
    (List.filter
       (fun e : string * list (string * Struct) => (0 <? length e.2)%nat)
       (map (fun e => (e.1, range e.2)) (range (structure p)))) /\
  ((forall pk pack, structure p !! pk = Some pack -> pack = ∅) ->
   Render p = Ok ("@startuml" +:+ nl +:+ "@enduml")).
Proof.
  split.
  - unfold renderAll. now rewrite renderPackages_skip_empty.
  - intros Hempty. unfold Render, renderAll.
    rewrite renderPackages_skip_empty.
    assert (Hnone :
      List.filter
        (fun e : string * list (string * Struct) => (0 <? length e.2)%nat)
        (map (fun e => (e.1, range e.2)) (range (structure p))) = []).
    { assert (Hall : forall e, In e (range (structure p)) -> e.2 = ∅).
      { intros [pk pack] Hin. apply list_elem_of_In, elem_of_map_to_list in Hin.
        exact (Hempty _ _ Hin). }
      induction (range (structure p)) as [|e l IH]; [reflexivity |].
      simpl. rewrite (Hall e (or_introl eq_refl)).
      unfold range at 1. rewrite map_to_list_empty. simpl.
      apply IH. intros e' He'. apply Hall. now right. }
    rewrite Hnone. reflexivity.
Qed.

(** A model with the one namespace [pkg], which holds no type. *)
Lemma empty_namespaces_not_rendered_witness :
  Render inPkg = Ok ("@startuml" +:+ nl +:+ "@enduml").
Proof.
  apply (proj2 (empty_namespaces_not_rendered inPkg)).
  intros pk pack Hpack. unfold inPkg in Hpack. simpl in Hpack.
  apply lookup_singleton_Some in Hpack as [_ <-]. reflexivity.
Defined.

(** ** [getOrCreateStruct] and [getStruct] *)

(** [getOrCreateStruct] returns the pointer for the name in the current
    package.  After it the entry exists: it is the entry there was, and then
    nothing at all has changed, or a new entry with the current package as
    its [PackageName], no kind and no member.  No other entry is touched, and
    asking again gives the same pointer and changes nothing. *)
Theorem getOrCreateStruct_lookup (p p' : ClassParser) (name : string)
    (ptr : StructPtr) :
  getOrCreateStruct p name = Ok (p', ptr) ->
  ptr = (currentPackageName p, name) /\
  deref p' ptr = Some (default (newStruct (currentPackageName p)) (deref p ptr)) /\
  (forall ptr', ptr' <> ptr -> deref p' ptr' = deref p ptr') /\
  (is_Some (deref p ptr) -> p' = p) /\
  getOrCreateStruct p' name = Ok (p', ptr).
Proof.
  unfold getOrCreateStruct. intros H.
  destruct (structure p !! currentPackageName p) as [pack|] eqn:Hpack;
    [| discriminate].
  destruct (pack !! name) as [old|] eqn:Hold; injection H as <- <-.
  - assert (Hderef : deref p (currentPackageName p, name) = Some old).
    { unfold deref. simpl. now rewrite Hpack. }
    rewrite Hderef, Hpack. cbv iota beta. rewrite Hold. now repeat split.
  - assert (Hderef : deref p (currentPackageName p, name) = None).
    { unfold deref. simpl. now rewrite Hpack. }
    rewrite Hderef. split; [reflexivity |].
    split; [now rewrite deref_store, decide_True |].
    split; [intros ptr' Hne; now rewrite deref_store, decide_False |].
    split; [intros [x Hx]; discriminate |].
    unfold store. simpl. rewrite lookup_insert_eq, Hpack. simpl.
    now rewrite lookup_insert_eq.
Qed.

(** A first request for [Dog] inside the package [pkg]. *)
Lemma getOrCreateStruct_lookup_witness :
  exists p',
    getOrCreateStruct inPkg "Dog" = Ok (p', ("pkg", "Dog")) /\
    deref p' ("pkg", "Dog") = Some (newStruct "pkg") /\
    getOrCreateStruct p' "Dog" = Ok (p', ("pkg", "Dog")).
Proof.
  eexists. split; [vm_compute; reflexivity |].
  match goal with
  | |- deref ?q _ = _ /\ _ =>
      destruct (getOrCreateStruct_lookup inPkg q "Dog" ("pkg", "Dog"))
        as (_ & Hnew & _ & _ & Hagain); [vm_compute; reflexivity |]
  end.
  split; [exact Hnew | exact Hagain].
Defined.

(** What [getOrCreateStruct] made, [getStruct] finds under the qualified
    name, when the name of the current package has no dot. *)
Theorem getStruct_after_getOrCreateStruct (p p' : ClassParser) (name : string)
    (ptr : StructPtr) :
  hasSeparator (currentPackageName p) = false ->
  getOrCreateStruct p name = Ok (p', ptr) ->
  getStruct p' (currentPackageName p +:+ "." +:+ name) = Ok (Some ptr).
Proof.
  intros Hplain Hget. rewrite (getStruct_qualified _ _ _ Hplain).
  unfold getOrCreateStruct in Hget.
  destruct (structure p !! currentPackageName p) as [pack|] eqn:Hpack;
    [| discriminate].
  destruct (pack !! name) as [old|] eqn:Hold; injection Hget as <- <-.
  - unfold deref. simpl. rewrite Hpack. simpl. now rewrite Hold.
  - now rewrite deref_store, decide_True.
Qed.

(** [Dog], made in [pkg], is found as [pkg.Dog]. *)
Lemma getStruct_after_getOrCreateStruct_witness :
  exists p',
    getOrCreateStruct inPkg "Dog" = Ok (p', ("pkg", "Dog")) /\
    getStruct p' "pkg.Dog" = Ok (Some ("pkg", "Dog")).
Proof.
  eexists. split; [vm_compute; reflexivity |].
  apply (getStruct_after_getOrCreateStruct inPkg _ "Dog" ("pkg", "Dog"));
    vm_compute; reflexivity.
Defined.

Lemma SplitN_2_plain (s : string) :
  hasSeparator s = false -> SplitN_2 s "." = [s].
Proof.
  induction s as [|c s IH]; intros Hs; [reflexivity |].
  rewrite hasSeparator_cons in Hs. apply orb_false_iff in Hs as [Hc Hs].
  now rewrite SplitN_2_cons, Ascii.eqb_sym, Hc, (IH Hs).
Qed.

(** A name either has no dot, or is a first part without a dot, a dot and a
    rest. *)
Lemma qualified_or_plain (s : string) :
  hasSeparator s = false \/
  exists pk nm, s = pk +:+ "." +:+ nm /\ hasSeparator pk = false.
Proof.
  induction s as [|c s IH]; [now left |].
  destruct (Ascii.eqb_spec "." c) as [<-|Hc].
  - right. exists "", s. now split.
  - destruct IH as [Hs | (pk & nm & -> & Hpk)].
    + left. rewrite hasSeparator_cons, Hs.
      now destruct (Ascii.eqb_spec "." c).
    + right. exists (String c pk), nm. split; [reflexivity |].
      rewrite hasSeparator_cons, Hpk. now destruct (Ascii.eqb_spec "." c).
Qed.

Lemma getStruct_Some (p : ClassParser) (s : string) (ptr : StructPtr) :
  getStruct p s = Ok (Some ptr) ->
  s = ptr.1 +:+ "." +:+ ptr.2 /\ hasSeparator ptr.1 = false /\
  is_Some (deref p ptr).
Proof.
  intros Hget.
  destruct (qualified_or_plain s) as [Hs | (pk & nm & -> & Hpk)].
  - unfold getStruct in Hget. rewrite (SplitN_2_plain s Hs) in Hget.
    destruct (structure p !! s); discriminate.
  - rewrite (getStruct_qualified _ _ _ Hpk) in Hget.
    destruct (deref p (pk, nm)) as [st|] eqn:Hst; [| discriminate].
    injection Hget as <-. simpl. rewrite Hst. eauto.
Qed.

(** The outcomes of [getStruct].  For a name [pk.nm], cut at its first dot,
    it is the pointer to the entry [nm] of package [pk] when there is one and
    nil otherwise.  For a name without a dot it is nil when no package has
    that name, and a panic ([split[1]] out of range) when one has.  A pointer
    that is returned always points to an entry, and the name asked for is the
    pointer's package, a dot and the pointer's type. *)
Theorem getStruct_outcomes (p : ClassParser) :
  (forall pk nm, hasSeparator pk = false ->
     getStruct p (pk +:+ "." +:+ nm) =
     Ok (match deref p (pk, nm) with
         | Some _ => Some (pk, nm)
         | None => None
         end)) /\
  (forall s, hasSeparator s = false ->
     getStruct p s = match structure p !! s with
                     | Some _ => Panic
                     | None => Ok None
                     end) /\
  (forall s ptr, getStruct p s = Ok (Some ptr) ->
     s = ptr.1 +:+ "." +:+ ptr.2 /\ hasSeparator ptr.1 = false /\
     is_Some (deref p ptr)).
Proof.
  split; [| split].
  - intros pk nm Hpk. apply (getStruct_qualified _ _ _ Hpk).
  - intros s Hs. unfold getStruct. rewrite (SplitN_2_plain s Hs).
    now destruct (structure p !! s).
  - apply getStruct_Some.
Qed.

(** In [dogModel]: the entry [pkg.Dog], a type that is not there, a package
    that is not there, and the name of the package alone. *)
Lemma getStruct_outcomes_witness :
  getStruct dogModel "pkg.Dog" = Ok (Some ("pkg", "Dog")) /\
  getStruct dogModel "pkg.Cat" = Ok None /\
  getStruct dogModel "other" = Ok None /\
  getStruct dogModel "pkg" = Panic.
Proof.
  destruct (getStruct_outcomes dogModel) as (Hqualified & Hplain & _).
  split; [| split; [| split]].
  - exact (Hqualified "pkg" "Dog" eq_refl).
  - exact (Hqualified "pkg" "Cat" eq_refl).
  - exact (Hplain "other" eq_refl).
  - exact (Hplain "pkg" eq_refl).
Defined.

(** ** [parsePackage] *)

Lemma forEach_filter {A S : Type} (body : S -> A -> result S) (keep : A -> bool)
    (xs : list A) :
  (forall s x, keep x = false -> body s x = Ok s) ->
  forall s, forEach body xs s = forEach body (List.filter keep xs) s.
Proof.
  intros Hskip. induction xs as [|x xs IH]; intros s; [reflexivity |].
  simpl List.filter. destruct (keep x) eqn:Hx.
  - rewrite !forEach_cons. destruct (body s x); [apply IH | reflexivity].
  - rewrite forEach_cons, (Hskip _ _ Hx). apply IH.
Qed.

(** The files whose name ends in [_test.go] play no part: a package is
    parsed as the package without them is. *)
Theorem parsePackage_skips_tests (p : ClassParser) (pack : ast.Package) :
  parsePackage p pack = parsePackage p (withoutTests pack).
Proof.
  unfold parsePackage, withoutTests. simpl ast.Name. simpl ast.Files.
  apply forEach_filter. intros s [fileName file] Hskip. simpl in Hskip |- *.
  now rewrite Hskip.
Qed.

(** ** The package tables *)

Lemma KeepsPackages_refl (p : ClassParser) : KeepsPackages p p.
Proof. now split. Qed.

Lemma KeepsPackages_trans (a b c : ClassParser) :
  KeepsPackages a b -> KeepsPackages b c -> KeepsPackages a c.
Proof. intros [H1 K1] [H2 K2]. split; [congruence | auto]. Qed.

Lemma store_KeepsPackages (p : ClassParser) (ptr : StructPtr) (st : Struct) :
  KeepsPackages p (store p ptr st).
Proof.
  split; [reflexivity |]. intros pk Hpk. unfold store. simpl.
  destruct (decide (ptr.1 = pk)) as [<-|Hne].
  - rewrite lookup_insert_eq. eauto.
  - now rewrite lookup_insert_ne.
Qed.

Lemma update_KeepsPackages (ptr : StructPtr) (f : Struct -> Struct)
    (p p' : ClassParser) :
  update ptr f p = Ok p' -> KeepsPackages p p'.
Proof.
  intros H. apply update_Ok in H as (st & _ & ->). apply store_KeepsPackages.
Qed.

Lemma getOrCreateStruct_KeepsPackages (p p' : ClassParser) (name : string)
    (ptr : StructPtr) :
  getOrCreateStruct p name = Ok (p', ptr) -> KeepsPackages p p'.
Proof.
  unfold getOrCreateStruct.
  destruct (structure p !! currentPackageName p) as [pack|]; [| discriminate].
  destruct (pack !! name); intros [= <- <-].
  - apply KeepsPackages_refl.
  - apply store_KeepsPackages.
Qed.

Lemma touch_KeepsPackages (p p' : ClassParser) (name : string)
    (f : Struct -> Struct) :
  ('(p1, ptr) ← getOrCreateStruct p name; update ptr f p1) = Ok p' ->
  KeepsPackages p p'.
Proof.
  intros H. apply bind_Ok in H as ([p1 ptr] & Hget & Hupd).
  eapply KeepsPackages_trans;
    [exact (getOrCreateStruct_KeepsPackages _ _ _ _ Hget)
    | exact (update_KeepsPackages _ _ _ _ Hupd)].
Qed.

Lemma touch_loop_KeepsPackages {A : Type} (g : A -> Struct -> Struct)
    (name : string) (xs : list A) (p p' : ClassParser) :
  forEach (fun p x => '(p1, ptr) ← getOrCreateStruct p name; update ptr (g x) p1)
    xs p = Ok p' ->
  KeepsPackages p p'.
Proof.
  apply (forEach_related _ KeepsPackages);
    [exact KeepsPackages_refl | exact KeepsPackages_trans |].
  intros a x b. apply touch_KeepsPackages.
Qed.

Lemma declareType_KeepsPackages (p p' : ClassParser)
    (typeName declarationType : string) :
  declareType p typeName declarationType = Ok p' -> KeepsPackages p p'.
Proof.
  unfold declareType. intros H.
  apply bind_Ok in H as ([p0 ptr] & Hget & H).
  apply bind_Ok in H as (p1 & Hupd & H).
  assert (Hkeep : KeepsPackages p p1).
  { eapply KeepsPackages_trans;
      [exact (getOrCreateStruct_KeepsPackages _ _ _ _ Hget)
      | exact (update_KeepsPackages _ _ _ _ Hupd)]. }
  cbv zeta in H.
  destruct (String.eqb declarationType "interface");
    [| destruct (String.eqb declarationType "class")];
    injection H as <-; exact Hkeep.
Qed.

Lemma parseFileDeclarations_KeepsPackages (p p' : ClassParser) (node : ast.Decl) :
  parseFileDeclarations p node = Ok p' -> KeepsPackages p p'.
Proof.
  destruct node as [specs|recv fname ty|]; simpl.
  - destruct specs as [|[typeName [fields|methods|]|] specs]; try discriminate;
      try (intros [= <-]; apply KeepsPackages_refl);
      intros H; apply bind_Ok in H as (p1 & Hloop & Hdecl);
      (eapply KeepsPackages_trans;
       [exact (touch_loop_KeepsPackages _ _ _ _ _ Hloop)
       | exact (declareType_KeepsPackages _ _ _ _ Hdecl)]).
  - destruct recv as [[|r recv]|]; try discriminate;
      try (intros [= <-]; apply KeepsPackages_refl).
    destruct (ast.Text (ast.Type_ r)) as [|c rest]; [discriminate |].
    intros H. apply bind_Ok in H as ([p0 ptr] & Hget & H).
    apply bind_Ok in H as (p1 & Hupd & H).
    eapply KeepsPackages_trans;
      [exact (getOrCreateStruct_KeepsPackages _ _ _ _ Hget) |].
    eapply KeepsPackages_trans;
      [exact (update_KeepsPackages _ _ _ _ Hupd)
      | exact (update_KeepsPackages _ _ _ _ H)].
  - intros [= <-]. apply KeepsPackages_refl.
Qed.

Lemma inPackage_kept (p p' : ClassParser) :
  KeepsPackages p p' -> inPackage p -> inPackage p'.
Proof. intros [Hcur Hkeep] Hin. unfold inPackage. rewrite Hcur. now apply Hkeep. Qed.

(** ** Declarations that make the builder panic, and those that do not *)

Lemma forEach_Panic {A S : Type} (body : S -> A -> result S) (xs : list A) (x : A) :
  In x xs -> (forall s, body s x = Panic) -> forall s, forEach body xs s = Panic.
Proof.
  intros Hin Hx. induction xs as [|y xs IH]; intros s; [contradiction |].
  rewrite forEach_cons. destruct Hin as [->|Hin].
  - now rewrite Hx.
  - destruct (body s y); [now apply IH | reflexivity].
Qed.

Lemma forEach_total_invariant {A S : Type} (body : S -> A -> result S)
    (I : S -> Prop) (xs : list A) :
  (forall s x, In x xs -> I s -> exists s', body s x = Ok s' /\ I s') ->
  forall s, I s -> exists s', forEach body xs s = Ok s' /\ I s'.
Proof.
  induction xs as [|x xs IH]; intros Hbody s Hs; [simpl; eauto |].
  destruct (Hbody s x (or_introl eq_refl) Hs) as (s1 & H1 & Hs1).
  rewrite forEach_cons, H1. simpl mbind. apply IH; [| exact Hs1].
  intros s0 y Hy. apply Hbody. now right.
Qed.

Lemma parseFileDeclarations_out_of_range (p : ClassParser) (node : ast.Decl) :
  indexesOutOfRange node = true -> parseFileDeclarations p node = Panic.
Proof.
  destruct node as [[|spec specs]|[[|r recv]|] fname ty|]; try discriminate;
    try reflexivity.
  simpl. destruct (ast.Text (ast.Type_ r)); [reflexivity | discriminate].
Qed.

Lemma touch_total (p : ClassParser) (name : string) (f : Struct -> Struct) :
  inPackage p ->
  exists p', ('(p1, ptr) ← getOrCreateStruct p name; update ptr f p1) = Ok p'.
Proof.
  intros [pack Hpack]. unfold getOrCreateStruct. rewrite Hpack.
  destruct (pack !! name) as [old|] eqn:Hold; simpl; unfold update.
  - assert (Hderef : deref p (currentPackageName p, name) = Some old).
    { unfold deref. simpl. rewrite Hpack. exact Hold. }
    rewrite Hderef. eauto.
  - rewrite deref_store, decide_True by reflexivity. eauto.
Qed.

Lemma touch_loop_total {A : Type} (g : A -> Struct -> Struct) (name : string)
    (xs : list A) (p : ClassParser) :
  inPackage p ->
  exists p',
    forEach (fun p x => '(p1, ptr) ← getOrCreateStruct p name; update ptr (g x) p1)
      xs p = Ok p' /\ inPackage p'.
Proof.
  apply forEach_total_invariant. intros q x _ Hq.
  destruct (touch_total q name (g x) Hq) as [q' Hq'].
  exists q'. split; [exact Hq' |].
  exact (inPackage_kept _ _ (touch_KeepsPackages _ _ _ _ Hq') Hq).
Qed.

Lemma declareType_total (p : ClassParser) (typeName declarationType : string) :
  inPackage p -> exists p', declareType p typeName declarationType = Ok p'.
Proof.
  intros Hin. unfold declareType.
  destruct (touch_total p typeName (setType declarationType) Hin) as [p1 H1].
  apply bind_Ok in H1 as ([p0 ptr] & Hget & Hupd).
  rewrite Hget. simpl mbind. rewrite Hupd. simpl mbind.
  destruct (String.eqb declarationType "interface");
    [| destruct (String.eqb declarationType "class")]; eauto.
Qed.

Lemma parseFileDeclarations_total (p : ClassParser) (node : ast.Decl) :
  inPackage p -> indexesOutOfRange node = false ->
  exists p', parseFileDeclarations p node = Ok p' /\ inPackage p'.
Proof.
  intros Hin Hnode.
  assert (Hok : exists p', parseFileDeclarations p node = Ok p').
  { destruct node as [specs|recv fname ty|]; simpl in Hnode |- *.
    - destruct specs as [|[typeName [fields|methods|]|] specs];
        try discriminate; eauto.
      + destruct (touch_loop_total AddField typeName fields p Hin)
          as (p1 & -> & Hin1).
        simpl mbind. now apply declareType_total.
      + destruct (touch_loop_total AddMethod typeName methods p Hin)
          as (p1 & -> & Hin1).
        simpl mbind. now apply declareType_total.
    - destruct recv as [[|r recv]|]; try discriminate; eauto.
      destruct (ast.Text (ast.Type_ r)) as [|c rest]; [discriminate |].
      destruct (touch_total p (if Ascii.eqb c "*" then rest else String c rest)
                  (fun st => if String.eqb (Type_ st) "" then setType "class" st
                             else st) Hin) as [p1 H1].
      apply bind_Ok in H1 as ([p0 ptr] & Hget & Hupd).
      rewrite Hget. simpl mbind. rewrite Hupd. simpl mbind.
      apply update_Ok in Hupd as (st & _ & ->).
      unfold update. rewrite deref_store, decide_True by reflexivity. eauto.
    - eauto. }
  destruct Hok as [p' Hp']. exists p'. split; [exact Hp' |].
  exact (inPackage_kept _ _ (parseFileDeclarations_KeepsPackages _ _ _ Hp') Hin).
Qed.

(** Inside a package, a declaration makes the builder panic exactly when it
    indexes out of range: an empty group such as [type ()] or [import ()], a
    method with an empty receiver list, or a receiver type with an empty
    text.  On every other declaration the builder goes on, still inside the
    package. *)
Theorem parseFileDeclarations_panics_iff (p : ClassParser) (node : ast.Decl) :
  inPackage p ->
  (parseFileDeclarations p node = Panic <-> indexesOutOfRange node = true) /\
  (indexesOutOfRange node = false ->
   exists p', parseFileDeclarations p node = Ok p' /\ inPackage p').
Proof.
  intros Hin. split; [split |].
  - intros Hpanic. destruct (indexesOutOfRange node) eqn:Hnode; [reflexivity |].
    destruct (parseFileDeclarations_total p node Hin Hnode) as (p' & Hp' & _).
    rewrite Hp' in Hpanic. discriminate.
  - apply parseFileDeclarations_out_of_range.
  - apply parseFileDeclarations_total. exact Hin.
Qed.

(** Inside [pkg]: an empty group panics, the declaration of [Dog] does not. *)
Lemma parseFileDeclarations_panics_iff_witness :
  parseFileDeclarations inPkg (ast.GenDecl []) = Panic /\
  exists p', parseFileDeclarations inPkg dogDecl = Ok p' /\ inPackage p'.
Proof.
  assert (Hin : inPackage inPkg).
  { unfold inPackage, inPkg. simpl. rewrite lookup_singleton_eq. eauto. }
  split.
  - apply (proj1 (parseFileDeclarations_panics_iff inPkg (ast.GenDecl []) Hin)).
    reflexivity.
  - apply (proj2 (parseFileDeclarations_panics_iff inPkg dogDecl Hin)).
    reflexivity.
Defined.

(** ** What a declaration changes *)





Lemma Grows_refl (q : ClassParser) : Grows q q.
Proof. split; [apply KeepsPackages_refl | now split]. Qed.

Lemma Grows_trans (a b c : ClassParser) : Grows a b -> Grows b c -> Grows a c.
Proof.
  intros (K1 & F1 & S1) (K2 & F2 & S2).
  split; [exact (KeepsPackages_trans _ _ _ K1 K2) |]. split.
  - intros ptr Hne. rewrite F2, F1; [reflexivity | exact Hne |].
    now rewrite (proj1 K1).
  - auto.
Qed.

Lemma parseFileDeclarations_Grows (p p' : ClassParser) (node : ast.Decl) :
  parseFileDeclarations p node = Ok p' -> Grows p p'.
Proof.
  intros Hrun. split; [exact (parseFileDeclarations_KeepsPackages _ _ _ Hrun) |].
  pose proof (parseFileDeclarations_Effect _ _ _ Hrun) as Heff.
  split; [| intros ptr; exact (Effect_is_Some _ _ _ _ Heff)].
  intros ptr Hne. destruct Heff as [_ Hderef]. rewrite Hderef.
  destruct (declEffect node) as [[name f]|]; [| reflexivity].
  rewrite decide_False; [reflexivity |]. intros ->. now apply Hne.
Qed.

(** A declaration changes at most one entry of the table, an entry of the
    current package.  Every other entry is exactly as it was, the entry that
    changes was there before or is new, no entry and no package table
    disappears, and the current package stays the same. *)
Theorem declaration_touches_one_entry (p p' : ClassParser) (node : ast.Decl) :
  parseFileDeclarations p node = Ok p' ->
  currentPackageName p' = currentPackageName p /\
  (exists name, forall ptr,
     ptr <> (currentPackageName p, name) -> deref p' ptr = deref p ptr) /\
  (forall ptr, is_Some (deref p ptr) -> is_Some (deref p' ptr)) /\
  (forall pk, is_Some (structure p !! pk) -> is_Some (structure p' !! pk)).
Proof.
  intros Hrun.
  pose proof (parseFileDeclarations_KeepsPackages _ _ _ Hrun) as [Hcur Hkeep].
  pose proof (parseFileDeclarations_Effect _ _ _ Hrun) as Heff.
  split; [exact Hcur |]. split; [| split; [| exact Hkeep]].
  - destruct Heff as [_ Hderef].
    destruct (declEffect node) as [[name f]|].
    + exists name. intros ptr Hne. rewrite Hderef. now rewrite decide_False.
    + exists "". intros ptr _. apply Hderef.
  - intros ptr. exact (Effect_is_Some _ _ _ _ Heff).
Qed.

(** The method [Speak] of [Dog] leaves the entry of [Dog] in place. *)
Lemma declaration_touches_one_entry_witness :
  exists p', parseFileDeclarations dogModel dogSpeak = Ok p' /\
             currentPackageName p' = "pkg" /\
             is_Some (deref p' ("pkg", "Dog")).
Proof.
  destruct (parseFileDeclarations dogModel dogSpeak) as [p'|] eqn:Hrun;
    [| vm_compute in Hrun; discriminate].
  destruct (declaration_touches_one_entry dogModel p' dogSpeak Hrun)
    as (Hcur & _ & Hsome & _).
  exists p'. split; [reflexivity |]. split; [exact Hcur |].
  apply Hsome. vm_compute. eauto.
Defined.

Lemma declarations_Grows (decls : list ast.Decl) (p p' : ClassParser) :
  forEach parseFileDeclarations decls p = Ok p' -> Grows p p'.
Proof.
  apply (forEach_related _ Grows); [exact Grows_refl | exact Grows_trans |].
  intros a x b. apply parseFileDeclarations_Grows.
Qed.

Lemma parsePackage_enters (p p' : ClassParser) (pack : ast.Package) :
  parsePackage p pack = Ok p' ->
  currentPackageName p' = ast.Name pack /\
  is_Some (structure p' !! ast.Name pack) /\
  (forall pk, is_Some (structure p !! pk) -> is_Some (structure p' !! pk)) /\
  (forall ptr, ptr.1 <> ast.Name pack -> deref p' ptr = deref p ptr) /\
  (forall ptr, is_Some (deref p ptr) -> is_Some (deref p' ptr)).
Proof.
  unfold parsePackage. intros Hrun.
  set (p0 := mkClassParser (structure p) (ast.Name pack) (allInterfaces p)
               (allStructs p)) in *.
  set (p1 := match structure p0 !! currentPackageName p0 with
             | Some _ => p0
             | None => setStructure p0 (<[currentPackageName p0 := ∅]> (structure p0))
             end) in *.
  assert (Hcur1 : currentPackageName p1 = ast.Name pack).
  { unfold p1. now destruct (structure p0 !! currentPackageName p0). }
  assert (Hin1 : is_Some (structure p1 !! ast.Name pack)).
  { unfold p1. simpl. destruct (structure p !! ast.Name pack) eqn:Hpack; simpl.
    - rewrite Hpack. eauto.
    - rewrite lookup_insert_eq. eauto. }
  assert (Hkeep1 : forall pk, is_Some (structure p !! pk) ->
                              is_Some (structure p1 !! pk)).
  { intros pk Hpk. unfold p1. simpl.
    destruct (structure p !! ast.Name pack) eqn:Hpack; simpl; [exact Hpk |].
    destruct (decide (ast.Name pack = pk)) as [<-|Hne].
    - rewrite lookup_insert_eq. eauto.
    - now rewrite lookup_insert_ne. }
  assert (Hderef1 : forall ptr, deref p1 ptr = deref p ptr).
  { intros ptr. exact (deref_enter_package p (ast.Name pack) ptr). }
  assert (Hgrows : Grows p1 p').
  { revert Hrun. apply (forEach_related _ Grows);
      [exact Grows_refl | exact Grows_trans |].
    intros a [fileName file] b. simpl.
    destruct (HasSuffix fileName "_test.go"); simpl.
    - intros [= <-]. apply Grows_refl.
    - apply declarations_Grows. }
  destruct Hgrows as ([Hcur Hkeep] & Hframe & Hsome).
  split; [congruence |]. split; [now apply Hkeep |].
  split; [intros pk Hpk; now apply Hkeep, Hkeep1 |]. split.
  - intros ptr Hne. rewrite Hframe, Hderef1; [reflexivity | congruence].
  - intros ptr Hptr. apply Hsome. now rewrite Hderef1.
Qed.

(** [parsePackage] makes the parsed package the current one and makes sure
    its table exists, even when the package declares no type.  It keeps the
    tables of all packages, changes no entry of another package and removes
    no entry. *)
Theorem parsePackage_enters_package (p p' : ClassParser) (pack : ast.Package) :
  parsePackage p pack = Ok p' ->
  currentPackageName p' = ast.Name pack /\
  is_Some (structure p' !! ast.Name pack) /\
  (forall pk, is_Some (structure p !! pk) -> is_Some (structure p' !! pk)) /\
  (forall ptr, ptr.1 <> ast.Name pack -> deref p' ptr = deref p ptr) /\
  (forall ptr, is_Some (deref p ptr) -> is_Some (deref p' ptr)).
Proof. apply parsePackage_enters. Qed.

(** A package with no file at all still gets its table. *)
Lemma parsePackage_enters_package_witness :
  exists p', parsePackage emptyModel (ast.mkPackage "pkg" []) = Ok p' /\
             currentPackageName p' = "pkg" /\ is_Some (structure p' !! "pkg").
Proof.
  destruct (parsePackage emptyModel (ast.mkPackage "pkg" [])) as [p'|] eqn:Hrun;
    [| vm_compute in Hrun; discriminate].
  destruct (parsePackage_enters_package emptyModel p' _ Hrun)
    as (Hcur & Hin & _).
  exists p'. split; [reflexivity |]. split; [exact Hcur | exact Hin].
Defined.

(** ** [NewClassDiagram] as a whole *)

Lemma existsb_false_In {A : Type} (f : A -> bool) (xs : list A) (x : A) :
  existsb f xs = false -> In x xs -> f x = false.
Proof.
  intros Hnone Hin. destruct (f x) eqn:Hx; [| reflexivity].
  rewrite <- Hnone. symmetry. apply existsb_exists. eauto.
Qed.

Lemma parsePackage_crashing (p : ClassParser) (pack : ast.Package) :
  crashing pack = true -> parsePackage p pack = Panic.
Proof.
  unfold crashing, parsePackage. intros Hcrash.
  apply existsb_exists in Hcrash as ([fileName file] & Hin & Hfile).
  apply andb_true_iff in Hfile as [Htest Hdecl]. simpl in Htest, Hdecl.
  apply existsb_exists in Hdecl as (node & Hnode & Hrange).
  apply (forEach_Panic _ _ _ Hin). intros s. simpl. rewrite Htest.
  apply (forEach_Panic _ _ _ Hnode). intros s'.
  now apply parseFileDeclarations_out_of_range.
Qed.

(** When the parser has given its packages without an error and a file that
    is not a test file holds a declaration that indexes out of range (an
    empty group such as [import ()], [var ()] or [type ()], or a method with
    an empty receiver), [NewClassDiagram] panics, whatever else the
    directory holds: it returns neither a model nor an error. *)
Theorem NewClassDiagram_panics_on_out_of_range
    (ParseDir : string -> list ast.Package * option error) (directoryPath : string)
    (packages : list ast.Package) :
  ParseDir directoryPath = (packages, None) ->
  existsb crashing packages = true ->
  NewClassDiagram ParseDir directoryPath = Panic.
Proof.
  intros Hparse Hcrash. unfold NewClassDiagram. rewrite Hparse.
  apply existsb_exists in Hcrash as (pack & Hin & Hpack).
  rewrite (forEach_Panic parsePackage packages pack Hin); [reflexivity |].
  intros s. now apply parsePackage_crashing.
Qed.

(** A file with the declaration of [Dog] followed by an empty group. *)
Lemma NewClassDiagram_panics_on_out_of_range_witness :
  NewClassDiagram (onePackage [dogDecl; ast.GenDecl []]) "." = Panic.
Proof.
  apply (NewClassDiagram_panics_on_out_of_range _ "."
           [ast.mkPackage "pkg" [("a.go", ast.mkFile [dogDecl; ast.GenDecl []])]]);
    reflexivity.
Defined.

Lemma parsePackage_total (p : ClassParser) (pack : ast.Package) :
  crashing pack = false -> exists p', parsePackage p pack = Ok p'.
Proof.
  intros Hsafe. unfold parsePackage.
  set (p0 := mkClassParser (structure p) (ast.Name pack) (allInterfaces p)
               (allStructs p)).
  set (p1 := match structure p0 !! currentPackageName p0 with
             | Some _ => p0
             | None => setStructure p0 (<[currentPackageName p0 := ∅]> (structure p0))
             end).
  assert (Hin1 : inPackage p1).
  { unfold inPackage, p1. simpl.
    destruct (structure p !! ast.Name pack) eqn:Hpack; simpl.
    - rewrite Hpack. eauto.
    - rewrite lookup_insert_eq. eauto. }
  destruct (forEach_total_invariant
              (fun p (entry : string * ast.File) =>
                 if negb (HasSuffix entry.1 "_test.go")
                 then forEach parseFileDeclarations (ast.Decls entry.2) p
                 else Ok p)
              inPackage (ast.Files pack)) with (s := p1) as (p' & Hp' & _);
    [| exact Hin1 | eauto].
  intros q [fileName file] Hfile Hq. simpl.
  pose proof (existsb_false_In _ _ _ Hsafe Hfile) as Hnone. simpl in Hnone.
  destruct (HasSuffix fileName "_test.go"); simpl in Hnone |- *; [eauto |].
  apply forEach_total_invariant; [| exact Hq].
  intros q' node Hnode Hq'. apply parseFileDeclarations_total; [exact Hq' |].
  exact (existsb_false_In _ _ _ Hnone Hnode).
Qed.

Lemma parse_Registered (packages : list ast.Package) (p1 : ClassParser) :
  forallb (fun pack => negb (hasSeparator (ast.Name pack))) packages = true ->
  forEach parsePackage packages (mkClassParser ∅ "" ∅ ∅) = Ok p1 ->
  Registered p1.
Proof.
  intros Hnames. rewrite forallb_forall in Hnames.
  apply (forEach_invariant _ Registered).
  - intros q pack q' Hin Hq Hstep.
    eapply parsePackage_Registered; [| exact Hq | exact Hstep].
    apply negb_true_iff. exact (Hnames _ Hin).
  - intros s [Hs|Hs]; simpl in Hs; set_solver.
Qed.

Lemma Resolved_Registered (p1 q : ClassParser) :
  Resolved p1 q -> Registered p1 -> Registered q.
Proof.
  intros (HS & HI & Hres) Hreg s Hs. rewrite HS, HI in Hs.
  destruct (Hreg s Hs) as (pk & nm & -> & Hpk & [st Hst]).
  exists pk, nm. split; [reflexivity |]. split; [exact Hpk |].
  specialize (Hres (pk, nm)). rewrite Hst in Hres.
  destruct Hres as (st' & Hst' & _). eauto.
Qed.

Lemma resolveInterface_total (st : StructPtr) (q : ClassParser) (i : string) :
  Registered q -> i ∈ allInterfaces q -> is_Some (deref q st) ->
  exists q', resolveInterface st q i = Ok q'.
Proof.
  intros Hreg Hi [r Hr]. unfold resolveInterface.
  destruct (Hreg i (or_intror Hi)) as (pk & nm & -> & Hpk & [inter Hinter]).
  rewrite (getStruct_qualified q pk nm Hpk), Hinter, Hr. simpl.
  rewrite Hinter. simpl.
  destruct (forallb _ _); [| eauto].
  unfold update. rewrite Hr. eauto.
Qed.

Lemma resolveStruct_total (interfaces : list string) (q : ClassParser) (s : string) :
  Registered q -> s ∈ allStructs q ->
  (forall i, In i interfaces -> i ∈ allInterfaces q) ->
  exists q', resolveStruct interfaces q s = Ok q'.
Proof.
  intros Hreg Hs Hinterfaces. unfold resolveStruct.
  destruct (Hreg s (or_introl Hs)) as (pk & nm & -> & Hpk & [r Hr]).
  rewrite (getStruct_qualified q pk nm Hpk), Hr. simpl.
  destruct (forEach_total_invariant (resolveInterface (pk, nm))
              (fun q' => Resolved q q') interfaces) with (s := q)
    as (q' & Hq' & _); [| apply Resolved_refl | eauto].
  intros a i Hi Ha.
  pose proof (Resolved_Registered _ _ Ha Hreg) as Hrega.
  destruct (resolveInterface_total (pk, nm) a i Hrega) as [b Hb].
  - destruct Ha as (_ & HI & _). rewrite HI. now apply Hinterfaces.
  - destruct (Resolved_deref _ _ _ _ Ha Hr) as (r' & Hr' & _). eauto.
  - exists b. split; [exact Hb |].
    exact (Resolved_trans _ _ _ Ha (resolveInterface_Resolved _ _ _ _ Hb)).
Qed.

Lemma resolve_total (p1 : ClassParser) :
  Registered p1 ->
  exists p,
    forEach (resolveStruct (elements (allInterfaces p1)))
      (elements (allStructs p1)) p1 = Ok p /\ Resolved p1 p.
Proof.
  intros Hreg.
  apply (forEach_total_invariant _ (fun q => Resolved p1 q));
    [| apply Resolved_refl].
  intros q s Hs Hq.
  pose proof (Resolved_Registered _ _ Hq Hreg) as Hregq.
  destruct Hq as (HS & HI & Hq).
  destruct (resolveStruct_total (elements (allInterfaces p1)) q s Hregq) as [q' Hq'].
  - rewrite HS. now apply elem_of_elements, list_elem_of_In.
  - intros i Hi. rewrite HI. now apply elem_of_elements, list_elem_of_In.
  - exists q'. split; [exact Hq' |].
    exact (Resolved_trans _ _ _ (conj HS (conj HI Hq))
             (resolveStruct_Resolved _ _ _ _ Hq')).
Qed.

(** When the parser has given its packages without an error, no parsed file
    holds a declaration that indexes out of range and no package name has a
    dot, [NewClassDiagram] returns a model and a nil error: nothing else in
    the file can panic (the methods of [Struct] it calls are taken as they
    are modelled, without a panic of their own). *)
Theorem NewClassDiagram_returns
    (ParseDir : string -> list ast.Package * option error) (directoryPath : string)
    (packages : list ast.Package) :
  ParseDir directoryPath = (packages, None) ->
  existsb crashing packages = false ->
  forallb (fun pack => negb (hasSeparator (ast.Name pack))) packages = true ->
  exists p, NewClassDiagram ParseDir directoryPath = Ok (Some p, None).
Proof.
  intros Hparse Hsafe Hnames. unfold NewClassDiagram. rewrite Hparse.
  destruct (forEach_total_invariant parsePackage (fun _ => True) packages)
    with (s := mkClassParser ∅ "" ∅ ∅) as (p1 & Hp1 & _); [| exact I |].
  { intros q pack Hin _.
    destruct (parsePackage_total q pack (existsb_false_In _ _ _ Hsafe Hin))
      as [q' Hq'].
    eauto. }
  rewrite Hp1. simpl mbind.
  destruct (resolve_total p1 (parse_Registered _ _ Hnames Hp1)) as (p & Hp & _).
  rewrite Hp. simpl. eauto.
Qed.

(** The package with [Speaker], [Dog] and the method of [Dog]. *)
Lemma NewClassDiagram_returns_witness :
  exists p,
    NewClassDiagram (onePackage [speakerDecl; dogDecl; dogSpeak]) "." =
    Ok (Some p, None).
Proof.
  apply (NewClassDiagram_returns _ "."
           [ast.mkPackage "pkg"
              [("a.go", ast.mkFile [speakerDecl; dogDecl; dogSpeak])]]);
    reflexivity.
Defined.

(** [allStructs] and [allInterfaces] hold names that [getStruct] finds: in a
    model returned by [NewClassDiagram] for packages whose names have no dot,
    every registered name is a package name, a dot and a type name, and
    [getStruct] returns the pointer to that type's entry.  The resolution
    loop therefore never meets a nil struct or a nil interface. *)
Theorem registered_names_resolve
    (ParseDir : string -> list ast.Package * option error) (directoryPath : string)
    (p : ClassParser) (s : string) :
  forallb (fun pack => negb (hasSeparator (ast.Name pack)))
    (ParseDir directoryPath).1 = true ->
  NewClassDiagram ParseDir directoryPath = Ok (Some p, None) ->
  s ∈ allStructs p \/ s ∈ allInterfaces p ->
  exists pk nm st,
    s = pk +:+ "." +:+ nm /\
    getStruct p s = Ok (Some (pk, nm)) /\
    deref p (pk, nm) = Some st.
Proof.
  unfold NewClassDiagram.
  destruct (ParseDir directoryPath) as [packages [e|]]; [discriminate |].
  simpl fst. intros Hnames Hrun Hs.
  apply bind_Ok in Hrun as (p1 & Hparse & Hrun).
  apply bind_Ok in Hrun as (p2 & Hresolve & [= <-]).
  pose proof (Resolved_Registered _ _ (resolveStructs_Resolved _ _ _ _ Hresolve)
                (parse_Registered _ _ Hnames Hparse)) as Hreg.
  destruct (Hreg s Hs) as (pk & nm & -> & Hpk & [st Hst]).
  exists pk, nm, st. split; [reflexivity |]. split; [| exact Hst].
  now rewrite (getStruct_qualified _ _ _ Hpk), Hst.
Qed.

(** [pkg.Dog] after the sample package. *)
Lemma registered_names_resolve_witness :
  exists p,
    NewClassDiagram (onePackage [speakerDecl; dogDecl; dogSpeak]) "." =
      Ok (Some p, None) /\
    exists pk nm st,
      "pkg.Dog" = pk +:+ "." +:+ nm /\
      getStruct p "pkg.Dog" = Ok (Some (pk, nm)) /\
      deref p (pk, nm) = Some st.
Proof.
  destruct (NewClassDiagram (onePackage [speakerDecl; dogDecl; dogSpeak]) ".")
    as [[[p|] [e|]]|] eqn:Hrun; try (vm_compute in Hrun; discriminate).
  exists p. split; [reflexivity |].
  apply (registered_names_resolve
           (onePackage [speakerDecl; dogDecl; dogSpeak]) "." p "pkg.Dog"
           eq_refl Hrun).
  left. apply elem_of_elements. vm_compute in Hrun. injection Hrun as <-.
  vm_compute. left.
Defined.

Lemma parse_tables (packages : list ast.Package) (q q' : ClassParser) :
  forEach parsePackage packages q = Ok q' ->
  (forall pk, is_Some (structure q !! pk) -> is_Some (structure q' !! pk)) /\
  (forall pack, In pack packages -> is_Some (structure q' !! ast.Name pack)).
Proof.
  revert q. induction packages as [|pack packages IH]; intros q Hrun.
  - injection Hrun as <-. split; [auto | contradiction].
  - rewrite forEach_cons in Hrun. apply bind_Ok in Hrun as (q1 & H1 & Hrest).
    apply parsePackage_enters in H1 as (_ & Hhere & Hkeep & _).
    apply IH in Hrest as [Hkeep' Hall].
    split; [auto |]. intros pack' [<-|Hin]; [auto | now apply Hall].
Qed.

Lemma resolve_KeepsPackages (interfaces structs : list string) (q q' : ClassParser) :
  forEach (resolveStruct interfaces) structs q = Ok q' -> KeepsPackages q q'.
Proof.
  apply (forEach_related _ KeepsPackages);
    [exact KeepsPackages_refl | exact KeepsPackages_trans |].
  intros a s b. unfold resolveStruct. intros H.
  apply bind_Ok in H as ([st|] & _ & H); [| injection H as <-;
                                             apply KeepsPackages_refl].
  revert H. apply (forEach_related _ KeepsPackages);
    [exact KeepsPackages_refl | exact KeepsPackages_trans |].
  intros c i d. unfold resolveInterface. intros H.
  apply bind_Ok in H as (inter & _ & H).
  destruct (deref c st); [| discriminate].
  apply bind_Ok in H as ([|] & _ & H).
  - exact (update_KeepsPackages _ _ _ _ H).
  - injection H as <-. apply KeepsPackages_refl.
Qed.

(** Every package the parser gave has a table in the model
    [NewClassDiagram] returns, also a package in which no type is declared
    (its table is empty, and [Render] writes nothing for it). *)
Theorem parsed_packages_have_tables
    (ParseDir : string -> list ast.Package * option error) (directoryPath : string)
    (p : ClassParser) (pack : ast.Package) :
  NewClassDiagram ParseDir directoryPath = Ok (Some p, None) ->
  In pack (ParseDir directoryPath).1 ->
  is_Some (structure p !! ast.Name pack).
Proof.
  unfold NewClassDiagram.
  destruct (ParseDir directoryPath) as [packages [e|]]; [discriminate |].
  simpl fst. intros Hrun Hin.
  apply bind_Ok in Hrun as (p1 & Hparse & Hrun).
  apply bind_Ok in Hrun as (p2 & Hresolve & [= <-]).
  apply resolve_KeepsPackages in Hresolve as [_ Hkeep].
  apply Hkeep. exact (proj2 (parse_tables _ _ _ Hparse) pack Hin).
Qed.

(** A package with one file that declares no type. *)
Lemma parsed_packages_have_tables_witness :
  exists p,
    NewClassDiagram (onePackage [ast.FuncDecl None "main" (ast.mkFuncType [] [])]) "."
      = Ok (Some p, None) /\
    is_Some (structure p !! "pkg").
Proof.
  destruct (NewClassDiagram
              (onePackage [ast.FuncDecl None "main" (ast.mkFuncType [] [])]) ".")
    as [[[p|] [e|]]|] eqn:Hrun; try (vm_compute in Hrun; discriminate).
  exists p. split; [reflexivity |].
  apply (parsed_packages_have_tables _ "." p
           (ast.mkPackage "pkg"
              [("a.go", ast.mkFile [ast.FuncDecl None "main" (ast.mkFuncType [] [])])])
           Hrun).
  left. reflexivity.
Defined.

(** *** Where extends edges can be *)

Lemma Extends_AddField (field : ast.Field) (st : Struct) :
  Extends (AddField field st) = Extends st.
Proof. unfold AddField. destruct (ast.Names field); reflexivity. Qed.

Lemma Extends_AddMethod (method : ast.Field) (st : Struct) :
  Extends (AddMethod method st) = Extends st.
Proof.
  unfold AddMethod.
  destruct (ast.AsFuncType (ast.Type_ method)), (ast.Names method); reflexivity.
Qed.

Lemma Extends_fold (g : ast.Field -> Struct -> Struct) (fields : list ast.Field) :
  (forall f st, Extends (g f st) = Extends st) ->
  forall st, Extends (fold_left (fun s f => g f s) fields st) = Extends st.
Proof.
  intros Hg. induction fields as [|f fields IH]; intros st; [reflexivity |].
  simpl. now rewrite IH, Hg.
Qed.

Lemma declEffect_Extends (node : ast.Decl) (name : string) (f : Struct -> Struct) :
  declEffect node = Some (name, f) -> forall st, Extends (f st) = Extends st.
Proof.
  destruct node as [specs|recv fname ty|]; simpl; try discriminate.
  - destruct specs as [|[typeName [fields|methods|]|] specs]; try discriminate;
      intros [= <- <-] st; simpl.
    + apply (Extends_fold AddField). exact Extends_AddField.
    + apply (Extends_fold AddMethod). exact Extends_AddMethod.
  - destruct recv as [[|r recv]|]; try discriminate.
    destruct (ast.Text (ast.Type_ r)) as [|c rest]; [discriminate |].
    intros [= <- <-] st. rewrite Extends_AddMethod.
    now destruct (String.eqb (Type_ st) "").
Qed.

Lemma noExtends_declEffect (node : ast.Decl) (name : string)
    (f : Struct -> Struct) (packageName : string) :
  (fun _ : ast.Decl => true) node = true ->
  declEffect node = Some (name, f) ->
  (forall st, noExtends st = true -> noExtends (f st) = true) /\
  noExtends (f (newStruct packageName)) = true.
Proof.
  intros _ Heff. unfold noExtends.
  split; [intros st Hst |]; now rewrite (declEffect_Extends _ _ _ Heff).
Qed.

Lemma parse_noExtends (packages : list ast.Package) (p1 : ClassParser) :
  forEach parsePackage packages (mkClassParser ∅ "" ∅ ∅) = Ok p1 ->
  everyStruct noExtends p1.
Proof.
  apply (forEach_invariant _ (everyStruct noExtends)).
  - intros q pack q' _ Hq Hstep.
    eapply (parsePackage_everyStruct noExtends (fun _ => true) noExtends_declEffect);
      [| exact Hq | exact Hstep].
    apply forallb_forall. intros e _. apply forallb_const_true.
  - intros ptr st. unfold deref. simpl. now rewrite lookup_empty.
Qed.

Lemma resolveInterface_edges (structs interfaces : list string) (st : StructPtr)
    (q q' : ClassParser) (i : string) :
  EdgesRegistered structs interfaces q ->
  In (st.1 +:+ "." +:+ st.2) structs -> In i interfaces ->
  resolveInterface st q i = Ok q' ->
  EdgesRegistered structs interfaces q'.
Proof.
  intros Hq Hst Hi Hstep. unfold resolveInterface in Hstep.
  apply bind_Ok in Hstep as (inter & _ & Hstep).
  destruct (deref q st) as [r|] eqn:Hr; [| discriminate].
  apply bind_Ok in Hstep as ([|] & _ & Hstep);
    [| injection Hstep as <-; exact Hq].
  apply update_Ok in Hstep as (r' & Hr' & ->).
  rewrite Hr in Hr'. injection Hr' as <-.
  intros ptr R x HR Hx. rewrite deref_store in HR.
  destruct (decide (ptr = st)) as [->|]; [| exact (Hq _ _ _ HR Hx)].
  injection HR as <-. simpl in Hx. apply in_app_or in Hx as [Hx|[<-|[]]].
  - exact (Hq _ _ _ Hr Hx).
  - now split.
Qed.

Lemma resolveStruct_edges (structs interfaces : list string) (q q' : ClassParser)
    (s : string) :
  EdgesRegistered structs interfaces q -> In s structs ->
  resolveStruct interfaces q s = Ok q' ->
  EdgesRegistered structs interfaces q'.
Proof.
  intros Hq Hs Hstep. unfold resolveStruct in Hstep.
  apply bind_Ok in Hstep as ([st|] & Hget & Hstep);
    [| injection Hstep as <-; exact Hq].
  apply getStruct_Some in Hget as (Heq & _ & _).
  revert Hstep.
  apply (forEach_invariant _ (EdgesRegistered structs interfaces)); [| exact Hq].
  intros a i b Hi Ha Hstep.
  eapply resolveInterface_edges; [exact Ha | | exact Hi | exact Hstep].
  now rewrite <- Heq.
Qed.

(** In a model returned by [NewClassDiagram], a name in the extends list of
    a type is always a name registered in [allInterfaces], and the type that
    carries it is always registered in [allStructs] under its qualified
    name.  A type that no struct declaration has registered, such as one
    known only as the receiver of methods, has an empty extends list. *)
Theorem extends_only_between_registered
    (ParseDir : string -> list ast.Package * option error) (directoryPath : string)
    (p : ClassParser) (ptr : StructPtr) (R : Struct) (x : string) :
  NewClassDiagram ParseDir directoryPath = Ok (Some p, None) ->
  deref p ptr = Some R -> In x (Extends R) ->
  ptr.1 +:+ "." +:+ ptr.2 ∈ allStructs p /\ x ∈ allInterfaces p.
Proof.
  unfold NewClassDiagram.
  destruct (ParseDir directoryPath) as [packages [e|]]; [discriminate |].
  intros Hrun HR Hx.
  apply bind_Ok in Hrun as (p1 & Hparse & Hrun).
  apply bind_Ok in Hrun as (p2 & Hresolve & [= <-]).
  pose proof (resolveStructs_Resolved _ _ _ _ Hresolve) as (HS & HI & _).
  assert (Hedges : EdgesRegistered (elements (allStructs p1))
                     (elements (allInterfaces p1)) p2).
  { revert Hresolve. apply (forEach_invariant _ (EdgesRegistered _ _)).
    - intros a s b Hs Ha Hstep.
      exact (resolveStruct_edges _ _ _ _ _ Ha Hs Hstep).
    - intros ptr' R' x' HR' Hx'.
      pose proof (parse_noExtends _ _ Hparse ptr' R' HR') as Hnone.
      unfold noExtends in Hnone. destruct (Extends R'); [contradiction | discriminate]. }
  destruct (Hedges ptr R x HR Hx) as [Hs Hi].
  rewrite HS, HI.
  split; now apply elem_of_elements, list_elem_of_In.
Qed.

(** The one edge of the sample package goes from [pkg.Dog], a registered
    struct, to [pkg.Speaker], a registered interface. *)
Lemma extends_only_between_registered_witness :
  exists p,
    NewClassDiagram (onePackage [speakerDecl; dogDecl; dogSpeak]) "." =
      Ok (Some p, None) /\
    "pkg.Dog" ∈ allStructs p /\ "pkg.Speaker" ∈ allInterfaces p.
Proof.
  destruct (NewClassDiagram (onePackage [speakerDecl; dogDecl; dogSpeak]) ".")
    as [[[p|] [e|]]|] eqn:Hrun; try (vm_compute in Hrun; discriminate).
  exists p. split; [reflexivity |].
  destruct (deref p ("pkg", "Dog")) as [R|] eqn:HR.
  - apply (extends_only_between_registered _ "." p ("pkg", "Dog") R "pkg.Speaker"
             Hrun HR).
    vm_compute in Hrun. injection Hrun as <-. vm_compute in HR.
    injection HR as <-. left. reflexivity.
  - exfalso. vm_compute in Hrun. injection Hrun as <-. vm_compute in HR.
    discriminate.
Defined.

(** *** The package an entry names *)

Lemma PackageName_fold (g : ast.Field -> Struct -> Struct) (fields : list ast.Field) :
  (forall f st, PackageName (g f st) = PackageName st) ->
  forall st, PackageName (fold_left (fun s f => g f s) fields st) = PackageName st.
Proof.
  intros Hg. induction fields as [|f fields IH]; intros st; [reflexivity |].
  simpl. now rewrite IH, Hg.
Qed.

Lemma PackageName_AddField (field : ast.Field) (st : Struct) :
  PackageName (AddField field st) = PackageName st.
Proof. unfold AddField. destruct (ast.Names field); reflexivity. Qed.

Lemma PackageName_AddMethod (method : ast.Field) (st : Struct) :
  PackageName (AddMethod method st) = PackageName st.
Proof.
  unfold AddMethod.
  destruct (ast.AsFuncType (ast.Type_ method)), (ast.Names method); reflexivity.
Qed.

Lemma declEffect_PackageName (node : ast.Decl) (name : string)
    (f : Struct -> Struct) :
  declEffect node = Some (name, f) ->
  forall st, PackageName (f st) = PackageName st.
Proof.
  destruct node as [specs|recv fname ty|]; simpl; try discriminate.
  - destruct specs as [|[typeName [fields|methods|]|] specs]; try discriminate;
      intros [= <- <-] st; simpl.
    + apply (PackageName_fold AddField). exact PackageName_AddField.
    + apply (PackageName_fold AddMethod). exact PackageName_AddMethod.
  - destruct recv as [[|r recv]|]; try discriminate.
    destruct (ast.Text (ast.Type_ r)) as [|c rest]; [discriminate |].
    intros [= <- <-] st. rewrite PackageName_AddMethod.
    now destruct (String.eqb (Type_ st) "").
Qed.

Lemma parseFileDeclarations_OwnPackage (p p' : ClassParser) (node : ast.Decl) :
  OwnPackage p -> parseFileDeclarations p node = Ok p' -> OwnPackage p'.
Proof.
  intros Hp Hrun ptr st Hst.
  apply parseFileDeclarations_Effect in Hrun as [_ Hderef].
  rewrite Hderef in Hst.
  destruct (declEffect node) as [[name f]|] eqn:Heff; [| exact (Hp _ _ Hst)].
  destruct (decide (ptr = (currentPackageName p, name))) as [->|];
    [| exact (Hp _ _ Hst)].
  injection Hst as <-. rewrite (declEffect_PackageName _ _ _ Heff).
  destruct (deref p (currentPackageName p, name)) as [old|] eqn:Hold; simpl.
  - exact (Hp _ _ Hold).
  - reflexivity.
Qed.

Lemma parsePackage_OwnPackage (p p' : ClassParser) (pack : ast.Package) :
  OwnPackage p -> parsePackage p pack = Ok p' -> OwnPackage p'.
Proof.
  intros Hp. unfold parsePackage.
  apply (forEach_invariant _ OwnPackage).
  - intros q [fileName file] q' _ Hq. simpl.
    destruct (HasSuffix fileName "_test.go"); simpl.
    + now intros [= <-].
    + revert Hq. apply (forEach_invariant _ OwnPackage).
      intros a node b _ Ha Hstep.
      exact (parseFileDeclarations_OwnPackage _ _ _ Ha Hstep).
  - intros ptr st. rewrite (deref_enter_package p (ast.Name pack) ptr).
    apply Hp.
Qed.

Lemma resolveStruct_OwnPackage (interfaces : list string) (q q' : ClassParser)
    (s : string) :
  OwnPackage q -> resolveStruct interfaces q s = Ok q' -> OwnPackage q'.
Proof.
  intros Hq Hrun. unfold resolveStruct in Hrun.
  apply bind_Ok in Hrun as ([st|] & _ & Hrun); [| now injection Hrun as <-].
  revert Hrun. apply (forEach_invariant _ OwnPackage); [| exact Hq].
  intros a i b _ Ha Hstep. unfold resolveInterface in Hstep.
  apply bind_Ok in Hstep as (inter & _ & Hstep).
  destruct (deref a st) as [r|] eqn:Hr; [| discriminate].
  apply bind_Ok in Hstep as ([|] & _ & Hstep); [| now injection Hstep as <-].
  apply update_Ok in Hstep as (r' & Hr' & ->).
  rewrite Hr in Hr'. injection Hr' as <-.
  intros ptr st' Hst'. rewrite deref_store in Hst'.
  destruct (decide (ptr = st)) as [->|]; [| exact (Ha _ _ Hst')].
  injection Hst' as <-. exact (Ha _ _ Hr).
Qed.

(** In a model returned by [NewClassDiagram], the [PackageName] of every
    entry is the name of the package in whose table the entry is.  The
    namespace [Render] puts before an unqualified edge source is therefore
    the namespace whose block declares the owning type. *)
Theorem entries_carry_their_package
    (ParseDir : string -> list ast.Package * option error) (directoryPath : string)
    (p : ClassParser) (ptr : StructPtr) (st : Struct) :
  NewClassDiagram ParseDir directoryPath = Ok (Some p, None) ->
  deref p ptr = Some st ->
  PackageName st = ptr.1.
Proof.
  unfold NewClassDiagram.
  destruct (ParseDir directoryPath) as [packages [e|]]; [discriminate |].
  intros Hrun. apply bind_Ok in Hrun as (p1 & Hparse & Hrun).
  apply bind_Ok in Hrun as (p2 & Hresolve & [= <-]).
  revert ptr st. change (OwnPackage p2).
  revert Hresolve. apply (forEach_invariant _ OwnPackage).
  - intros a s b _ Ha Hstep. exact (resolveStruct_OwnPackage _ _ _ _ Ha Hstep).
  - revert Hparse. apply (forEach_invariant _ OwnPackage).
    + intros a pack b _ Ha Hstep. exact (parsePackage_OwnPackage _ _ _ Ha Hstep).
    + intros ptr st. unfold deref. simpl. now rewrite lookup_empty.
Qed.

(** The entry of [Dog] in the sample package. *)
Lemma entries_carry_their_package_witness :
  exists p st,
    NewClassDiagram (onePackage [speakerDecl; dogDecl; dogSpeak]) "." =
      Ok (Some p, None) /\
    deref p ("pkg", "Dog") = Some st /\ PackageName st = "pkg".
Proof.
  destruct (NewClassDiagram (onePackage [speakerDecl; dogDecl; dogSpeak]) ".")
    as [[[p|] [e|]]|] eqn:Hrun; try (vm_compute in Hrun; discriminate).
  destruct (deref p ("pkg", "Dog")) as [st|] eqn:Hst.
  - exists p, st. split; [reflexivity |]. split; [exact Hst |].
    exact (entries_carry_their_package _ "." p ("pkg", "Dog") st Hrun Hst).
  - exfalso. vm_compute in Hrun. injection Hrun as <-. vm_compute in Hst.
    discriminate.
Defined.

(** ** From the declarations to the text *)

(** The sample package is built and rendered. *)
Lemma Render_after_NewClassDiagram_witness :
  exists p text,
    NewClassDiagram (onePackage [speakerDecl; dogDecl; dogSpeak]) "." =
      Ok (Some p, None) /\
    Render p = Ok text.
Proof.
  destruct (NewClassDiagram (onePackage [speakerDecl; dogDecl; dogSpeak]) ".")
    as [[[p|] [e|]]|] eqn:Hrun; try (vm_compute in Hrun; discriminate).
  destruct (Render_after_NewClassDiagram
              (onePackage [speakerDecl; dogDecl; dogSpeak]) "." p eq_refl Hrun)
    as [text Htext].
  exists p, text. now split.
Defined.

(** [Dog] has the method of [Speaker] and gets the edge to [pkg.Speaker]. *)
Lemma declared_struct_resolved_witness :
  exists p R,
    NewClassDiagram (onePackage [speakerDecl; dogDecl; dogSpeak]) "." =
      Ok (Some p, None) /\
    deref p ("pkg", "Dog") = Some R /\ In "pkg.Speaker" (Extends R).
Proof.
  destruct (NewClassDiagram (onePackage [speakerDecl; dogDecl; dogSpeak]) ".")
    as [[[p|] [e|]]|] eqn:Hrun; try (vm_compute in Hrun; discriminate).
  destruct (deref p ("pkg", "Dog")) as [R|] eqn:HR;
    [| exfalso; vm_compute in Hrun; injection Hrun as <-; vm_compute in HR;
       discriminate].
  destruct (deref p ("pkg", "Speaker")) as [I|] eqn:HI;
    [| exfalso; vm_compute in Hrun; injection Hrun as <-; vm_compute in HI;
       discriminate].
  exists p, R. split; [reflexivity |]. split; [exact HR |].
  apply (declared_struct_resolved
           (onePackage [speakerDecl; dogDecl; dogSpeak]) "." p
           "pkg" "Dog" "pkg" "Speaker" R I eq_refl Hrun eq_refl eq_refl).
  - apply elem_of_elements. vm_compute in Hrun. injection Hrun as <-.
    vm_compute. left.
  - apply elem_of_elements. vm_compute in Hrun. injection Hrun as <-.
    vm_compute. left.
  - exact HR.
  - exact HI.
  - vm_compute in Hrun. injection Hrun as <-. vm_compute in HR, HI.
    injection HR as <-. injection HI as <-. reflexivity.
Defined.

(** ** Names that do not start with an ASCII byte *)

(** The marker is decided by the first byte of the name read as a rune, not
    by the first character.  A name that starts with a multi-byte UTF-8
    character is therefore marked by its lead byte alone: [+] for the lead
    bytes 0xC2-0xDE (a name starting with a lower-case e-acute is marked as
    public) and [-] for the lead bytes 0xDF-0xF4, whatever the character
    is. *)
Theorem marker_of_multibyte_name (c : ascii) (rest : string) :
  ((194 <= N_of_ascii c <= 222)%N -> accessModifier (String c rest) = Ok "+") /\
  ((223 <= N_of_ascii c <= 244)%N -> accessModifier (String c rest) = Ok "-").
Proof.
  unfold accessModifier. simpl. unfold IsLower.
  split; intros [Hlow Hhigh];
    repeat match goal with
           | |- context [(?x <=? ?y)%N] => destruct (N.leb_spec x y)
           | |- context [(?x =? ?y)%N] => destruct (N.eqb_spec x y)
           end; simpl; try reflexivity; lia.
Qed.

(** A name whose first character is a lower-case e-acute (bytes C3 A9), and
    one whose first character is a CJK ideograph (bytes E6 97 A5). *)
Lemma marker_of_multibyte_name_witness :
  accessModifier (String (ascii_of_nat 195) (String (ascii_of_nat 169) "cole"))
    = Ok "+" /\
  accessModifier
    (String (ascii_of_nat 230) (String (ascii_of_nat 151) (String (ascii_of_nat 165) "")))
    = Ok "-".
Proof.
  split.
  - apply (proj1 (marker_of_multibyte_name (ascii_of_nat 195) _)).
    vm_compute. split; discriminate.
  - apply (proj2 (marker_of_multibyte_name (ascii_of_nat 230) _)).
    vm_compute. split; discriminate.
Defined.

(** ** The resolution pass, whatever the order of the two loops *)

Lemma forEach_map {A B S : Type} (body : S -> B -> result S) (g : A -> B)
    (xs : list A) (s : S) :
  forEach body (map g xs) s = forEach (fun s x => body s (g x)) xs s.
Proof.
  revert s. induction xs as [|x xs IH]; intros s; [reflexivity |].
  simpl map. rewrite !forEach_cons.
  destruct (body s (g x)); [apply IH | reflexivity].
Qed.

Lemma resolveVisiting_elements (p1 : ClassParser) :
  forEach (resolveStruct (elements (allInterfaces p1))) (elements (allStructs p1)) p1
  = resolveVisiting (elementsVisits p1) p1.
Proof. unfold resolveVisiting, elementsVisits. now rewrite forEach_map. Qed.

Lemma VisitsAll_elements (p1 : ClassParser) : VisitsAll p1 (elementsVisits p1).
Proof.
  unfold elementsVisits. split.
  - intros s Hs. exists (elements (allInterfaces p1)).
    apply in_map_iff. exists s. split; [reflexivity |].
    now apply list_elem_of_In, elem_of_elements.
  - intros s interfaces Hin i Hi.
    apply in_map_iff in Hin as (s' & [= _ <-] & _).
    now apply list_elem_of_In, elem_of_elements.
Qed.

Lemma resolveVisiting_Resolved (visits : list (string * list string))
    (q q' : ClassParser) :
  resolveVisiting visits q = Ok q' -> Resolved q q'.
Proof.
  apply (forEach_related _ Resolved); [exact Resolved_refl | exact Resolved_trans |].
  intros a v b. apply resolveStruct_Resolved.
Qed.

Lemma resolveVisiting_adds (pkR nmR pkI nmI : string)
    (visits : list (string * list string)) (interfaces : list string)
    (q q' : ClassParser) (R I : Struct) :
  hasSeparator pkR = false -> hasSeparator pkI = false ->
  In (pkR +:+ "." +:+ nmR, interfaces) visits ->
  In (pkI +:+ "." +:+ nmI) interfaces ->
  deref q (pkR, nmR) = Some R -> deref q (pkI, nmI) = Some I ->
  implements R I = true ->
  resolveVisiting visits q = Ok q' ->
  exists R', deref q' (pkR, nmR) = Some R' /\ Functions R' = Functions R /\
             In (pkI +:+ "." +:+ nmI) (Extends R').
Proof.
  intros HpkR HpkI Hvisit Hi HR HI Himpl Hrun. unfold resolveVisiting in Hrun.
  apply in_split in Hvisit as (before & after & ->).
  rewrite forEach_app in Hrun. apply bind_Ok in Hrun as (q1 & Hbefore & Hrun).
  rewrite forEach_cons in Hrun. apply bind_Ok in Hrun as (q2 & Hstep & Hafter).
  apply (resolveVisiting_Resolved before) in Hbefore.
  apply (resolveVisiting_Resolved after) in Hafter.
  destruct (Resolved_deref _ _ _ _ Hbefore HR) as (R1 & HR1 & HfR1 & _).
  destruct (Resolved_deref _ _ _ _ Hbefore HI) as (I1 & HI1 & HfI1 & _).
  assert (Himpl1 : implements R1 I1 = true).
  { unfold implements in *. now rewrite HfR1, HfI1. }
  simpl in Hstep. unfold resolveStruct in Hstep.
  rewrite (getStruct_qualified q1 pkR nmR HpkR), HR1 in Hstep. simpl in Hstep.
  destruct (resolveInterfaces_adds pkR nmR pkI nmI HpkI interfaces q1 q2 R1 I1
              Hi HR1 HI1 Himpl1 Hstep) as (R2 & HR2 & HfR2 & Hin2).
  destruct (Resolved_deref _ _ _ _ Hafter HR2) as (R' & HR' & HfR' & Hext).
  exists R'. split; [exact HR' |]. split; [congruence | auto].
Qed.

(** The resolution pass gives the edge whatever the order of its two loops.
    [NewClassDiagram] is the parsing loops followed by [resolveVisiting] for
    one visiting order, and that order visits every registered struct and,
    for it, every registered interface.  For every visiting order that does
    so, with any sequence of the interfaces for each struct: a record
    registered in [allStructs] whose methods cover (same name, same parameter
    types, same return types) those of an interface registered in
    [allInterfaces] has the interface's qualified name in its [Extends] when
    the pass returns, the package names of the two being without a dot. *)
Theorem declared_struct_resolved_any_order :
  (forall ParseDir directoryPath,
     NewClassDiagram ParseDir directoryPath =
     match ParseDir directoryPath with
     | (_, Some e) => Ok (None, Some e)
     | (packages, None) =>
         p1 ← forEach parsePackage packages (mkClassParser ∅ "" ∅ ∅);
         p ← resolveVisiting (elementsVisits p1) p1;
         Ok (Some p, None)
     end) /\
  (forall p1, VisitsAll p1 (elementsVisits p1)) /\
  (forall p1 p visits pkR nmR pkI nmI R I,
     VisitsAll p1 visits ->
     resolveVisiting visits p1 = Ok p ->
     hasSeparator pkR = false -> hasSeparator pkI = false ->
     pkR +:+ "." +:+ nmR ∈ allStructs p1 ->
     pkI +:+ "." +:+ nmI ∈ allInterfaces p1 ->
     deref p (pkR, nmR) = Some R -> deref p (pkI, nmI) = Some I ->
     implements R I = true ->
     In (pkI +:+ "." +:+ nmI) (Extends R)).
Proof.
  split; [| split; [exact VisitsAll_elements |]].
  - intros ParseDir directoryPath. unfold NewClassDiagram.
    destruct (ParseDir directoryPath) as [packages [e|]]; [reflexivity |].
    destruct (forEach parsePackage packages (mkClassParser ∅ "" ∅ ∅)) as [p1|];
      [| reflexivity].
    simpl mbind. now rewrite resolveVisiting_elements.
  - intros p1 p visits pkR nmR pkI nmI R I [Hstructs Hinterfaces] Hrun
      HpkR HpkI HsR HsI HR HI Himpl.
    destruct (Hstructs _ HsR) as [interfaces Hvisit].
    pose proof (Hinterfaces _ _ Hvisit _ HsI) as Hi.
    pose proof (resolveVisiting_Resolved _ _ _ Hrun) as (_ & _ & Hres).
    assert (Hback : forall ptr st,
      deref p ptr = Some st ->
      exists st1, deref p1 ptr = Some st1 /\ Functions st1 = Functions st).
    { intros ptr st Hst. specialize (Hres ptr).
      destruct (deref p1 ptr) as [st1|].
      - destruct Hres as (st' & Hst' & Hf & _). exists st1.
        split; [reflexivity | congruence].
      - rewrite Hres in Hst. discriminate. }
    destruct (Hback _ _ HR) as (R1 & HR1 & HfR).
    destruct (Hback _ _ HI) as (I1 & HI1 & HfI).
    assert (Himpl1 : implements R1 I1 = true).
    { unfold implements in *. now rewrite HfR, HfI. }
    destruct (resolveVisiting_adds pkR nmR pkI nmI visits interfaces p1 p R1 I1
                HpkR HpkI Hvisit Hi HR1 HI1 Himpl1 Hrun)
      as (R' & HR' & _ & Hin).
    rewrite HR in HR'. now injection HR' as <-.
Qed.

(** [parsedSample] is what the parsing loops make of the sample package. *)
Lemma parsedSample_parsed :
  forEach parsePackage
    [ast.mkPackage "pkg" [("a.go", ast.mkFile [speakerDecl; dogDecl; dogSpeak])]]
    (mkClassParser ∅ "" ∅ ∅) = Ok parsedSample.
Proof. vm_compute. reflexivity. Qed.

(** [Dog] gets the edge to [pkg.Speaker] in the sample state, here with a
    visiting order that goes twice through the structs and twice through the
    interfaces. *)
Lemma declared_struct_resolved_any_order_witness :
  exists p R,
    resolveVisiting
      [("pkg.Dog", ["pkg.Speaker"; "pkg.Speaker"]); ("pkg.Dog", ["pkg.Speaker"])]
      parsedSample = Ok p /\
    deref p ("pkg", "Dog") = Some R /\ In "pkg.Speaker" (Extends R).
Proof.
  destruct (resolveVisiting
              [("pkg.Dog", ["pkg.Speaker"; "pkg.Speaker"]);
               ("pkg.Dog", ["pkg.Speaker"])] parsedSample)
    as [p|] eqn:Hrun; [| vm_compute in Hrun; discriminate].
  destruct (deref p ("pkg", "Dog")) as [R|] eqn:HR;
    [| exfalso; vm_compute in Hrun; injection Hrun as <-; vm_compute in HR;
       discriminate].
  destruct (deref p ("pkg", "Speaker")) as [I|] eqn:HI;
    [| exfalso; vm_compute in Hrun; injection Hrun as <-; vm_compute in HI;
       discriminate].
  exists p, R. split; [reflexivity |]. split; [exact HR |].
  apply (proj2 (proj2 declared_struct_resolved_any_order) parsedSample p
           [("pkg.Dog", ["pkg.Speaker"; "pkg.Speaker"]); ("pkg.Dog", ["pkg.Speaker"])]
           "pkg" "Dog" "pkg" "Speaker" R I).
  - split.
    + intros s Hs. unfold parsedSample in Hs. simpl in Hs.
      apply elem_of_singleton in Hs as ->.
      exists ["pkg.Speaker"]. right. left. reflexivity.
    + intros s interfaces [[= <- <-]|[[= <- <-]|[]]] i Hi;
        unfold parsedSample in Hi; simpl in Hi;
        apply elem_of_singleton in Hi as ->; left; reflexivity.
  - exact Hrun.
  - reflexivity.
  - reflexivity.
  - unfold parsedSample. simpl. now apply elem_of_singleton.
  - unfold parsedSample. simpl. now apply elem_of_singleton.
  - exact HR.
  - exact HI.
  - vm_compute in Hrun. injection Hrun as <-. vm_compute in HR, HI.
    injection HR as <-. injection HI as <-. reflexivity.
Defined.
